(** * NER workshop: the entity-table cells of the notebook

    A shallow embedding of the cells of [NER_workshop] that turn the
    tagger's output into a table: the single-document cell, the
    accumulation loop (in its file-based and its [enumerate]-based form),
    the [sort_values] cell, the [set_index] / [apply(pd.Series.explode)] /
    [reset_index] cell and the category filters.

    Strings are byte strings (UTF-8); Python orders [str] by code point,
    which UTF-8 preserves, so [String.le] is the order [sort_values] uses
    on the [File_name] column. *)

From stdpp Require Import base decidable option list list_numbers strings sorting gmap.
From stdpp Require Import numbers pretty.

(** ** Exceptions *)

Inductive exception :=
  | KeyError (name : string)
  | ValueError (msg : string)
  | AttributeError (name : string)
  | OSError (path : string).

Inductive result (A : Type) :=
  | Ok (a : A)
  | Raise (e : exception).
Arguments Ok {A} a.
Arguments Raise {A} e.

Global Instance result_ret : MRet result := @Ok.
Global Instance result_bind : MBind result := λ A B f m,
  match m with
  | Ok a => f a
  | Raise e => Raise e
  end.

(** [for x in xs: body], threading the loop's variables as [s]; an
    exception raised by the body leaves the loop. *)
Fixpoint for_in {A S : Type} (body : S → A → result S) (xs : list A) (s : S)
    : result S :=
  match xs with
  | [] => Ok s
  | x :: xs' => s' ← body s x; for_in body xs' s'
  end.

(** ** The tagger's objects *)

(** One element of [doc.ents]. *)
Record Span := { label_ : string; text : string }.

(** A processed document; only [doc.ents] is read by the cells below. *)
Record Doc := { ents : list Span }.

(** ** The per-document dictionary

    [{'File_name': ..., 'Entity_type': [...], 'Entity_identified': [...]}]
    (key ['Doc_index'] in the [enumerate] form of the loop). *)
Record DocumentEntityRecord (K : Type) := EntDict {
  key : K;
  Entity_type : list string;
  Entity_identified : list string
}.
Arguments EntDict {K} _ _ _.
Arguments key {K} _.
Arguments Entity_type {K} _.
Arguments Entity_identified {K} _.

(** ** Accumulation loops

    The cell under "Let's build on this function to run this process
    across our entire collection of texts".  The rendered tutorial reads
    the files that [glob] lists; the notebook iterates over the processed
    documents of [df_articles] with [enumerate]. *)

(** [entity_type = []; for ent in doc.ents: entity_type.append(ent.label_)] *)
Definition entity_type_loop (doc : Doc) : list string :=
  fold_left (λ entity_type ent, entity_type ++ [label_ ent]) (ents doc) [].

(** [entity_identified = []; for ent in doc.ents: entity_identified.append(ent.text)] *)
Definition entity_identified_loop (doc : Doc) : list string :=
  fold_left (λ entity_identified ent, entity_identified ++ [text ent]) (ents doc) [].

(** The loop over [articles = glob.glob(f"{directory}/*.txt")]. *)
Module FileLoop.
Section FileLoop.
(** [nlp(text)] and [open(filepath, encoding='utf-8').read()]; the latter
    raises when the file is missing or is not UTF-8. *)
Variable nlp : string → Doc.
Variable open_read : string → result string.

Definition loop_body (all_entities : list (DocumentEntityRecord string))
    (filepath : string) : result (list (DocumentEntityRecord string)) :=
  txt ← open_read filepath;
  let doc := nlp txt in
  let entity_type := entity_type_loop doc in
  let entity_identified := entity_identified_loop doc in
  let ent_dict := EntDict filepath entity_type entity_identified in
  Ok (all_entities ++ [ent_dict]).

Definition all_entities (articles : list string)
    : result (list (DocumentEntityRecord string)) :=
  for_in loop_body articles [].
End FileLoop.
End FileLoop.

(** The loop over [enumerate(df_articles['processed_doc'])]. *)
Module EnumerateLoop.
(** [enumerate(xs)] *)
Fixpoint enumerate_from {A : Type} (start : nat) (xs : list A) : list (nat * A) :=
  match xs with
  | [] => []
  | x :: xs' => (start, x) :: enumerate_from (S start) xs'
  end.

Definition enumerate {A : Type} (xs : list A) : list (nat * A) :=
  enumerate_from 0 xs.

(** The body of [for idx, doc in enumerate(df_articles['processed_doc'])];
    the two comprehensions are projections of [doc.ents]. *)
Definition loop_body (all_entities : list (DocumentEntityRecord nat))
    (item : nat * Doc) : list (DocumentEntityRecord nat) :=
  let '(idx, doc) := item in
  let entity_type := map label_ (ents doc) in
  let entity_identified := map text (ents doc) in
  let ent_dict := EntDict idx entity_type entity_identified in
  all_entities ++ [ent_dict].

Definition all_entities (processed_doc : list Doc)
    : list (DocumentEntityRecord nat) :=
  fold_left loop_body (enumerate processed_doc) [].
End EnumerateLoop.

(** ** pandas

    A frame built from the dictionaries above has the key column
    (['File_name'] or ['Doc_index']) and the two object columns
    ['Entity_type'] and ['Entity_identified'].  A cell of an object column
    holds a Python list before the explode and a scalar after it.  The
    positional [RangeIndex] labels that [sort_values] carries along are
    dropped by [set_index] and play no part in the cells modelled here, so
    rows are kept in display order without them. *)

Inductive value :=
  | Str (s : string)
  | NaN.

Inductive cell :=
  | ListLike (items : list value)
  | Scalar (v : value).

Global Instance value_eq_dec : EqDecision value.
Proof. solve_decision. Defined.
Global Instance cell_eq_dec : EqDecision cell.
Proof. solve_decision. Defined.

Record Row (K : Type) := MkRow {
  row_key : K;
  row_Entity_type : cell;
  row_Entity_identified : cell
}.
Arguments MkRow {K} _ _ _.
Arguments row_key {K} _.
Arguments row_Entity_type {K} _.
Arguments row_Entity_identified {K} _.

(** [pd.DataFrame([])] has no columns at all; a frame with columns may
    still have no rows. *)
Inductive DataFrame (K : Type) :=
  | NoColumns
  | Frame (rows : list (Row K)).
Arguments NoColumns {K}.
Arguments Frame {K} rows.

(** A frame after [set_index([key])]: the key column is the index. *)
Inductive IndexedFrame (K : Type) :=
  | Indexed (rows : list (Row K)).
Arguments Indexed {K} rows.

(** A column of an indexed frame: index label and value, in row order. *)
Definition Series (K : Type) : Type := list (K * cell).

Section pandas.
Context {K : Type} `{EqDecision K}.

(** The row that one dictionary becomes: its lists are stored as they
    are, one object per cell. *)
Definition record_row (d : DocumentEntityRecord K) : Row K :=
  MkRow (key d) (ListLike (Str <$> Entity_type d))
        (ListLike (Str <$> Entity_identified d)).

(** [pd.DataFrame(all_entities)] *)
Definition pd_DataFrame (data : list (DocumentEntityRecord K)) : DataFrame K :=
  match data with
  | [] => NoColumns
  | _ :: _ => Frame (record_row <$> data)
  end.

(** [df.sort_values(by=<key column>, ascending=True)].  pandas sorts with
    its default [kind='quicksort'], which promises no order among equal
    keys; the insertion sort below is one admissible outcome, and the only
    one when the keys are pairwise distinct ([sorted_permutation_unique]).
    It is written over any keyed sequence so that the same sort can be read
    on rows and on the dictionaries they come from. *)
Section sort_values.
Context (le : relation K) `{!RelDecision le}.

Fixpoint insert_by {A : Type} (by_key : A → K) (x : A) (xs : list A) : list A :=
  match xs with
  | [] => [x]
  | y :: rest =>
      if decide (le (by_key x) (by_key y))
      then x :: y :: rest
      else y :: insert_by by_key x rest
  end.

Definition sort_by {A : Type} (by_key : A → K) (xs : list A) : list A :=
  foldr (insert_by by_key) [] xs.

Definition sort_values (by_ : string) (df : DataFrame K) : result (DataFrame K) :=
  match df with
  | NoColumns => Raise (KeyError by_)
  | Frame rows => Ok (Frame (sort_by row_key rows))
  end.
End sort_values.

(** [df.set_index([<key column>])] *)
Definition set_index (keys : string) (df : DataFrame K) : result (IndexedFrame K) :=
  match df with
  | NoColumns => Raise (KeyError keys)
  | Frame rows => Ok (Indexed rows)
  end.

(** The column [name] of an indexed frame, as [apply] hands it to the
    function. *)
Definition column (field : Row K → cell) (rows : list (Row K)) : Series K :=
  map (λ r, (row_key r, field r)) rows.

(** What one cell becomes under [Series.explode]: a list-like gives one
    entry per element, an empty list-like gives one [NaN], a scalar is
    returned unchanged. *)
Definition explode_value (c : cell) : list value :=
  match c with
  | ListLike [] => [NaN]
  | ListLike (v :: items) => v :: items
  | Scalar v => [v]
  end.

(** [pd.Series.explode]: the index label is repeated for every entry. *)
Definition Series_explode (s : Series K) : Series K :=
  '(label, c) ← s; (λ v, (label, Scalar v)) <$> explode_value c.

(** [df.apply(pd.Series.explode)]: each column is exploded on its own and
    the resulting series are put together again, position by position when
    they carry the same index.  That is the case whenever the two lists of
    every row explode to the same number of entries, as they do for the
    dictionaries of the accumulation loops.  When the indexes differ the
    columns would have to be aligned by label, which pandas refuses for an
    index that repeats a label. *)
Definition apply_explode (df : IndexedFrame K) : result (IndexedFrame K) :=
  let 'Indexed rows := df in
  let types := Series_explode (column row_Entity_type rows) in
  let identified := Series_explode (column row_Entity_identified rows) in
  if decide (types.*1 = identified.*1)
  then Ok (Indexed (zip_with (λ t i, MkRow t.1 t.2 i.2) types identified))
  else Raise (ValueError "cannot reindex on an axis with duplicate labels").

(** [df.reset_index()] *)
Definition reset_index (df : IndexedFrame K) : DataFrame K :=
  let 'Indexed rows := df in Frame rows.

(** The explode cell:
    [df_NER = df_NER.set_index([key]);
     df_NER = df_NER.apply(pd.Series.explode).reset_index()] *)
Definition explode_cell (keys : string) (df_NER : DataFrame K) : result (DataFrame K) :=
  indexed ← set_index keys df_NER;
  exploded ← apply_explode indexed;
  Ok (reset_index exploded).

(** The cells under "Let's filter our results by GPE" (and by LAW, by
    Money).  [df_NER['Entity_type'] == label] is the element-wise comparison
    of an object column with a string; [NaN] and lists compare unequal to
    every string. *)
Definition eq_str (c : cell) (label : string) : bool :=
  match c with
  | Scalar (Str s) => String.eqb s label
  | Scalar NaN => false
  | ListLike _ => false
  end.

Definition Entity_type_eq (rows : list (Row K)) (label : string) : list bool :=
  map (λ r, eq_str (row_Entity_type r) label) rows.

(** [df[mask]] for a boolean mask built from the same frame. *)
Fixpoint boolean_index (rows : list (Row K)) (mask : list bool) : list (Row K) :=
  match rows, mask with
  | r :: rows', b :: mask' =>
      if b then r :: boolean_index rows' mask' else boolean_index rows' mask'
  | _, _ => []
  end.

(** [df_NER[df_NER['Entity_type'] == label]] *)
Definition filter_Entity_type (label : string) (df_NER : DataFrame K)
    : result (DataFrame K) :=
  match df_NER with
  | NoColumns => Raise (KeyError "Entity_type")
  | Frame rows => Ok (Frame (boolean_index rows (Entity_type_eq rows label)))
  end.

(** [df[:n]] *)
Definition head_rows (n : nat) (df : DataFrame K) : DataFrame K :=
  match df with
  | NoColumns => NoColumns
  | Frame rows => Frame (take n rows)
  end.

(** A filter cell as written: [df_NER[df_NER['Entity_type'] == label][:15]] *)
Definition filter_cell (label : string) (df_NER : DataFrame K) : result (DataFrame K) :=
  selected ← filter_Entity_type label df_NER;
  Ok (head_rows 15 selected).
End pandas.

(** ** The notebook's table cells, end to end

    The cells under "Let's visualize our results in a Pandas Dataframe
    sorted by the file name" and "Let's explode our Dataframe so we have
    just one entity value per row pegged to the file name", in the two
    forms of the notebook. *)

Module FileNotebook.
(** [df_NER = pd.DataFrame(all_entities);
     df_NER = df_NER.sort_values(by='File_name', ascending=True)] *)
Definition sort_cell (all_entities : list (DocumentEntityRecord string))
    : result (DataFrame string) :=
  sort_values String.le "File_name" (pd_DataFrame all_entities).

(** The sort cell followed by the explode cell. *)
Definition table (all_entities : list (DocumentEntityRecord string))
    : result (DataFrame string) :=
  sorted ← sort_cell all_entities;
  explode_cell "File_name" sorted.

(** The accumulation, sort and explode cells run one after the other. *)
Definition df_NER (nlp : string → Doc) (open_read : string → result string)
    (articles : list string) : result (DataFrame string) :=
  all_entities ← FileLoop.all_entities nlp open_read articles;
  table all_entities.
End FileNotebook.

Module EnumerateNotebook.
(** [df_NER = pd.DataFrame(all_entities);
     df_NER = df_NER.sort_values(by='Doc_index', ascending=True)] *)
Definition sort_cell (all_entities : list (DocumentEntityRecord nat))
    : result (DataFrame nat) :=
  sort_values (≤) "Doc_index" (pd_DataFrame all_entities).

Definition table (all_entities : list (DocumentEntityRecord nat))
    : result (DataFrame nat) :=
  sorted ← sort_cell all_entities;
  explode_cell "Doc_index" sorted.

Definition df_NER (processed_doc : list Doc) : result (DataFrame nat) :=
  table (EnumerateLoop.all_entities processed_doc).
End EnumerateNotebook.

(** ** The single-document cell

    The cell under "Let's define a function that will entify all the
    entities in our document and save the output as a dictionary".
    [entity_type] and [entity_identified] are created once, before the
    loop, and every dictionary built inside the loop refers to these two
    list objects.  The cell is therefore run on a store of objects, with
    references as values. *)

Module SingleDocCell.
Abbreviation loc := nat (only parsing).

Inductive pyval :=
  | VStr (s : string)
  | VRef (l : loc).

Inductive object :=
  | PyList (items : list pyval)
  | PyDict (entries : list (string * pyval)).

Abbreviation heap := (gmap loc object) (only parsing).

(** Statements: a store transformer that may raise. *)
Definition stmt (A : Type) : Type := heap → result (A * heap).

Global Instance stmt_ret : MRet stmt := λ A a h, Ok (a, h).
Global Instance stmt_bind : MBind stmt := λ A B f m h,
  match m h with
  | Ok (a, h') => f a h'
  | Raise e => Raise e
  end.

(** A new object: [[]] or [{...}]. *)
Definition new (o : object) : stmt loc := λ h,
  let l := fresh (dom h) in Ok (l, <[l := o]> h).

(** [xs.append(v)]; only a list has this method, and the cell calls it on
    nothing else. *)
Definition append (xs : loc) (v : pyval) : stmt unit := λ h,
  match h !! xs with
  | Some (PyList items) => Ok ((), <[xs := PyList (items ++ [v])]> h)
  | _ => Raise (AttributeError "append")
  end.

(** [for x in xs: body] *)
Fixpoint for_each {A : Type} (xs : list A) (body : A → stmt unit) : stmt unit :=
  match xs with
  | [] => mret ()
  | x :: xs' => body x ≫= λ _, for_each xs' body
  end.

(** The body of [for named_entity in doc.ents]: two appends to the shared
    lists, a new dictionary referring to them, and its append to
    [entities]. *)
Definition loop_body (entities entity_type entity_identified : loc)
    (named_entity : Span) : stmt unit :=
  append entity_type (VStr (label_ named_entity)) ≫= λ _,
  append entity_identified (VStr (text named_entity)) ≫= λ _,
  entity_dict ← new (PyDict [("Entity_type", VRef entity_type);
                             ("Entity_identified", VRef entity_identified)]);
  append entities (VRef entity_dict).

(** The cell; its result is the reference bound to [entities]. *)
Definition cell (doc : Doc) : stmt loc :=
  entities ← new (PyList []);
  entity_type ← new (PyList []);
  entity_identified ← new (PyList []);
  for_each (ents doc) (loop_body entities entity_type entity_identified) ≫= λ _,
  mret entities.

(** Reading the store the way [print(entities)] does: references are
    followed at the time of printing. *)
Definition read_str (v : pyval) : option string :=
  match v with
  | VStr s => Some s
  | VRef _ => None
  end.

Definition read_str_list (h : heap) (v : pyval) : option (list string) :=
  match v with
  | VRef l =>
      match h !! l with
      | Some (PyList items) => mapM read_str items
      | _ => None
      end
  | VStr _ => None
  end.

Definition read_entity_dict (h : heap) (v : pyval)
    : option (list string * list string) :=
  match v with
  | VRef l =>
      match h !! l with
      | Some (PyDict [("Entity_type", t); ("Entity_identified", i)]) =>
          types ← read_str_list h t;
          identified ← read_str_list h i;
          Some (types, identified)
      | _ => None
      end
  | VStr _ => None
  end.

Definition print_entities (h : heap) (entities : loc)
    : option (list (list string * list string)) :=
  match h !! entities with
  | Some (PyList items) => mapM (read_entity_dict h) items
  | _ => None
  end.

(** The store while the loop runs (not part of the cell: the invariant
    its correctness proof carries).  The three lists are distinct objects,
    the two shared lists hold what has been appended so far, and
    [entities] holds references to pairwise distinct dictionaries which all
    refer to the two shared lists. *)
Record loop_state (h : heap) (entities entity_type entity_identified : loc)
    (types identified : list string) (dicts : list loc) : Prop := {
  ls_distinct :
    entities ≠ entity_type ∧ entities ≠ entity_identified
    ∧ entity_type ≠ entity_identified;
  ls_types : h !! entity_type = Some (PyList (VStr <$> types));
  ls_identified : h !! entity_identified = Some (PyList (VStr <$> identified));
  ls_entities : h !! entities = Some (PyList (VRef <$> dicts));
  ls_dicts :
    Forall (λ d, h !! d = Some (PyDict [("Entity_type", VRef entity_type);
                                        ("Entity_identified", VRef entity_identified)]))
           dicts;
  ls_NoDup : NoDup dicts
}.
End SingleDocCell.

(** ** Row-wise reading of the table

    The definitions of this section are not cells of the notebook; they
    name what the results below say about the cells' output. *)

Section views.
Context {K : Type}.

(** The two parallel sequences of a dictionary have the same length. *)
Definition parallel (d : DocumentEntityRecord K) : Prop :=
  length (Entity_type d) = length (Entity_identified d).

(** The rows one frame row explodes to, read row by row. *)
Definition explode_row (r : Row K) : list (Row K) :=
  zip_with (λ t i, MkRow (row_key r) (Scalar t) (Scalar i))
    (explode_value (row_Entity_type r))
    (explode_value (row_Entity_identified r)).

(** One row per (category, text) pair of a document, in emission order. *)
Definition entity_rows (d : DocumentEntityRecord K) : list (Row K) :=
  zip_with (λ t i, MkRow (key d) (Scalar (Str t)) (Scalar (Str i)))
    (Entity_type d) (Entity_identified d).

(** The placeholder row of a document without entities. *)
Definition nan_row (k : K) : Row K := MkRow k (Scalar NaN) (Scalar NaN).

(** The rows of one document in the exploded table. *)
Definition document_rows (d : DocumentEntityRecord K) : list (Row K) :=
  match Entity_type d with
  | [] => [nan_row (key d)]
  | _ :: _ => entity_rows d
  end.

(** Both columns of the row explode to the same number of entries. *)
Definition balanced (r : Row K) : Prop :=
  length (explode_value (row_Entity_type r))
  = length (explode_value (row_Entity_identified r)).

(** A row of an exploded table: both cells are scalars. *)
Definition flat (r : Row K) : Prop :=
  (∃ t, row_Entity_type r = Scalar t) ∧ (∃ i, row_Entity_identified r = Scalar i).

(** A flattened row seen as a record with one-element sequences. *)
Definition one_element (c : cell) : cell :=
  match c with
  | Scalar v => ListLike [v]
  | ListLike items => ListLike items
  end.

Definition one_element_record (r : Row K) : Row K :=
  MkRow (row_key r) (one_element (row_Entity_type r))
        (one_element (row_Entity_identified r)).

(** The row carries an entity of category [label]. *)
Definition has_category (label : string) (r : Row K) : Prop :=
  row_Entity_type r = Scalar (Str label).

(** The rows of the table that belong to the document with key [k]. *)
Definition rows_of_key `{EqDecision K} (k : K) (rows : list (Row K)) : list (Row K) :=
  filter (λ r, row_key r = k) rows.
End views.

Global Instance has_category_dec {K} (label : string) (r : Row K) :
  Decision (has_category label r).
Proof. unfold has_category. apply _. Defined.

(** ** Reading the accumulation loop

    Again not cells of the notebook: what it means for a file to be
    readable and for a dictionary to be the one built from a file. *)

Definition readable (open_read : string → result string) (filepath : string) : Prop :=
  ∃ txt, open_read filepath = Ok txt.

(** [d] pairs [filepath] with the projections of the spans the tagger
    emits for the file's text. *)
Definition built_from (nlp : string → Doc) (open_read : string → result string)
    (filepath : string) (d : DocumentEntityRecord string) : Prop :=
  ∃ txt, open_read filepath = Ok txt
       ∧ d = EntDict filepath (map label_ (ents (nlp txt))) (map text (ents (nlp txt))).

(** ** Sample data *)

Module Sample.
Definition tagged : list Span :=
  [ {| label_ := "ORG"; text := "Apple" |};
    {| label_ := "PERSON"; text := "Jane" |};
    {| label_ := "GPE"; text := "Paris" |} ].

Definition nlp (txt : string) : Doc :=
  if String.eqb txt "Apple hired Jane in Paris." then {| ents := tagged |}
  else {| ents := [] |}.

Definition open_read (filepath : string) : result string :=
  if String.eqb filepath "doc1" then Ok "Apple hired Jane in Paris."
  else if String.eqb filepath "doc2" then Ok ""
  else if String.eqb filepath "files/10.txt" then Ok "Apple hired Jane in Paris."
  else if String.eqb filepath "files/2.txt" then Ok "Apple hired Jane in Paris."
  else Raise (OSError filepath).

Definition records : list (DocumentEntityRecord string) :=
  [ EntDict "doc1" ["ORG"; "PERSON"; "GPE"] ["Apple"; "Jane"; "Paris"];
    EntDict "doc2" [] [] ].

Definition entity (k category txt : string) : Row string :=
  MkRow k (Scalar (Str category)) (Scalar (Str txt)).

(** What the explode cell returns for [records]. *)
Definition exploded : list (Row string) :=
  [ entity "doc1" "ORG" "Apple";
    entity "doc1" "PERSON" "Jane";
    entity "doc1" "GPE" "Paris";
    MkRow "doc2" (Scalar NaN) (Scalar NaN) ].
End Sample.

(** ** The cells around the table

    The remaining cells of the notebook: the per-label printing loops, the
    scraping and cleaning of the articles, the loop that saves them to
    files, and the selection of one processed document. *)

(** [for named_entity in doc.ents:
       if named_entity.label_ == label: print(named_entity)];
    the standard output is the list of printed lines, and a span prints as
    its text. *)
Definition print_labelled (label : string) (doc : Doc) : list string :=
  fold_left (λ stdout named_entity,
               if String.eqb (label_ named_entity) label
               then stdout ++ [text named_entity]
               else stdout)
            (ents doc) [].



(** [series.iloc[i]]: a negative position counts from the end; [None]
    stands for the [IndexError] of a position out of bounds. *)
Definition iloc {A : Type} (s : list A) (i : Z) : option A :=
  let n := Z.of_nat (length s) in
  if decide (i < - n ∨ n ≤ i)%Z then None
  else if decide (i < 0)%Z then s !! Z.to_nat (i + n) else s !! Z.to_nat i.

Module Notebook.
Section Notebook.
(** [requests.get(url)] followed by [response.text] with the encoding set
    to UTF-8 (a failed request raises, whatever the server answers is
    text); [BeautifulSoup(text, "html.parser").get_text()]; [nlp]. *)
Variable requests_get_text : string → result string.
Variable get_text : string → string.
Variable nlp : string → Doc.



(** [df_articles['cleaned_text'] = df_articles['scraped_text'].apply(...)] *)
Definition cleaned_text (scraped : list string) : list string :=
  map get_text scraped.

(** [df_articles['processed_doc'] = df_articles['cleaned_text'].apply(nlp)] *)
Definition processed_doc (cleaned : list string) : list Doc :=
  map nlp cleaned.

(** The cell that picks one document for display:
    [doc = df_articles['processed_doc'].iloc[row_index]] *)
Definition selected_doc (scraped : list string) (row_index : Z) : option Doc :=
  iloc (processed_doc (cleaned_text scraped)) row_index.

(** The table cells run on the scraped articles. *)
Definition df_NER_of_scraped (scraped : list string) : result (DataFrame nat) :=
  EnumerateNotebook.df_NER (processed_doc (cleaned_text scraped)).

End Notebook.
End Notebook.

(** The loop that saves the cleaned articles, and the files it writes. *)
Module SaveFiles.
Record filesystem := {
  directories : gset string;
  files : gmap string string
}.

(** [open(directory/name, "w")] followed by [file.write(data)]: the file is
    created or replaced; the directory has to exist.  Texts are kept as
    they are written: the notebook reads them back with the encoding they
    were written in. *)
Definition open_write (directory name data : string) (fs : filesystem)
    : result filesystem :=
  if decide (directory ∈ directories fs)
  then Ok {| directories := directories fs;
             files := <[directory +:+ "/" +:+ name := data]> (files fs) |}
  else Raise (OSError (directory +:+ "/" +:+ name)).

(** [open(filepath, encoding='utf-8').read()] *)
Definition open_read (fs : filesystem) (filepath : string) : result string :=
  match files fs !! filepath with
  | Some data => Ok data
  | None => Raise (OSError filepath)
  end.

(** [f"files/{id}.txt"] *)
Definition file_path (id : nat) : string :=
  "files" +:+ "/" +:+ (pretty id +:+ ".txt").

(** The body of [for text in df_articles['scraped_text']], on the loop's
    variables [id] and the file system. *)
Definition loop_body (get_text : string → string)
    (state : nat * filesystem) (txt : string) : result (nat * filesystem) :=
  let '(id, fs) := state in
  let article := get_text txt in
  let id := id + 1 in
  fs' ← open_write "files" (pretty id +:+ ".txt") article fs;
  Ok (id, fs').


(** The paths of the files numbered [1] to [n], in the order of writing. *)
Definition saved_paths (n : nat) : list string :=
  file_path <$> seq 1 n.
End SaveFiles.

(** The dictionary the file loop builds for [filepath] (with empty
    sequences when the file cannot be read, where the loop builds none). *)
Definition record_of (nlp : string → Doc) (open_read : string → result string)
    (filepath : string) : DocumentEntityRecord string :=
  match open_read filepath with
  | Ok txt => EntDict filepath (map label_ (ents (nlp txt))) (map text (ents (nlp txt)))
  | Raise _ => EntDict filepath [] []
  end.

(** The rows of a document with key [k] that carry the category [label]:
    one per span with that label, in emission order. *)
Definition labelled_rows {K : Type} (k : K) (label : string) (spans : list Span)
    : list (Row K) :=
  (λ e, MkRow k (Scalar (Str label)) (Scalar (Str (text e))))
    <$> filter (λ e, label_ e = label) spans.

(** The rows of a document with key [k] and the given spans. *)
Definition span_rows {K : Type} (k : K) (spans : list Span) : list (Row K) :=
  match spans with
  | [] => [nan_row k]
  | _ :: _ => (λ e, MkRow k (Scalar (Str (label_ e))) (Scalar (Str (text e)))) <$> spans
  end.

(** * Results *)

(** ** The [result] monad *)

Lemma result_bind_Ok {A B : Type} (f : A → result B) (a : A) :
  (Ok a ≫= f) = f a.
Proof. reflexivity. Qed.

Lemma result_bind_inv {A B : Type} (f : A → result B) (m : result A) (b : B) :
  (m ≫= f) = Ok b → ∃ a, m = Ok a ∧ f a = Ok b.
Proof. destruct m as [a|e]; [eauto | discriminate]. Qed.

(** ** Accumulation *)

Lemma append_loop_map {A B : Type} (f : A → B) (xs : list A) (acc : list B) :
  fold_left (λ ys x, ys ++ [f x]) xs acc = acc ++ map f xs.
Proof.
  revert acc. induction xs as [|x xs IH]; intros acc; simpl.
  - by rewrite app_nil_r.
  - by rewrite IH, <- app_assoc.
Qed.

Lemma entity_type_loop_map (doc : Doc) :
  entity_type_loop doc = map label_ (ents doc).
Proof. unfold entity_type_loop. by rewrite append_loop_map. Qed.

Lemma entity_identified_loop_map (doc : Doc) :
  entity_identified_loop doc = map text (ents doc).
Proof. unfold entity_identified_loop. by rewrite append_loop_map. Qed.

Section FileLoop_facts.
Variable nlp : string → Doc.
Variable open_read : string → result string.

Lemma loop_body_readable acc a txt :
  open_read a = Ok txt →
  FileLoop.loop_body nlp open_read acc a
  = Ok (acc ++ [EntDict a (map label_ (ents (nlp txt))) (map text (ents (nlp txt)))]).
Proof.
  intros Ha. unfold FileLoop.loop_body. rewrite Ha. simpl.
  by rewrite entity_type_loop_map, entity_identified_loop_map.
Qed.

Lemma for_in_loop_body articles acc :
  Forall (readable open_read) articles →
  ∃ recs, for_in (FileLoop.loop_body nlp open_read) articles acc = Ok (acc ++ recs)
        ∧ Forall2 (built_from nlp open_read) articles recs.
Proof.
  intros Hread. revert acc.
  induction Hread as [|a articles [txt Ha] _ IH]; intros acc; simpl.
  - exists []. by rewrite app_nil_r.
  - rewrite (loop_body_readable _ _ _ Ha), result_bind_Ok.
    destruct (IH (acc ++ [EntDict a (map label_ (ents (nlp txt)))
                                   (map text (ents (nlp txt)))]))
      as (recs & -> & Hrecs).
    eexists (_ :: recs). rewrite <- app_assoc. split; [done|].
    constructor; [|done]. by exists txt.
Qed.

Lemma all_entities_built articles :
  Forall (readable open_read) articles →
  ∃ recs, FileLoop.all_entities nlp open_read articles = Ok recs
        ∧ Forall2 (built_from nlp open_read) articles recs.
Proof. intros H. apply (for_in_loop_body articles [] H). Qed.

Lemma built_from_key a d : built_from nlp open_read a d → key d = a.
Proof. by intros (txt & _ & ->). Qed.

Lemma built_from_parallel a d : built_from nlp open_read a d → parallel d.
Proof. intros (txt & _ & ->). unfold parallel. simpl. by rewrite !length_map. Qed.

Lemma built_keys articles recs :
  Forall2 (built_from nlp open_read) articles recs → key <$> recs = articles.
Proof.
  induction 1 as [|a d articles recs Hd _ IH]; csimpl; [done|].
  f_equal; eauto using built_from_key.
Qed.

Lemma built_parallel articles recs :
  Forall2 (built_from nlp open_read) articles recs → Forall parallel recs.
Proof.
  induction 1 as [|a d articles recs Hd _ IH]; constructor;
    eauto using built_from_parallel.
Qed.
End FileLoop_facts.

Lemma filter_none {A} (P : A → Prop) `{!∀ x, Decision (P x)} (l : list A) :
  Forall (λ x, ¬ P x) l → filter P l = [].
Proof.
  induction 1 as [|x l Hx _ IH]; [done|]. by rewrite filter_cons_False.
Qed.

Lemma key_count_NoDup {K} `{EqDecision K} (recs : list (DocumentEntityRecord K)) k :
  NoDup (key <$> recs) → k ∈ key <$> recs →
  length (filter (λ d, key d = k) recs) = 1.
Proof.
  induction recs as [|d recs IH]; csimpl; intros Hnd Hin.
  - by apply elem_of_nil in Hin.
  - apply NoDup_cons in Hnd as [Hd Hnd]. rewrite filter_cons.
    case_decide as Hk; simpl.
    + f_equal. apply length_zero_iff_nil. apply filter_none, Forall_forall.
      intros d' Hd' Heq. apply Hd. apply list_elem_of_fmap.
      exists d'. split; [congruence|done].
    + apply IH; [done|]. apply elem_of_cons in Hin as [?|?]; [congruence|done].
Qed.

Section Enumerate_facts.
Import EnumerateLoop.

Lemma fold_loop_body items acc :
  fold_left loop_body items acc
  = acc ++ map (λ item, EntDict item.1 (map label_ (ents item.2))
                                        (map text (ents item.2))) items.
Proof.
  revert acc. induction items as [|[idx doc] items IH]; intros acc; simpl.
  - by rewrite app_nil_r.
  - by rewrite IH, <- app_assoc.
Qed.

Lemma enumerate_from_fst {A} (xs : list A) start :
  (enumerate_from start xs).*1 = seq start (length xs).
Proof.
  revert start. induction xs as [|x xs IH]; intros start; simpl; [done|].
  by rewrite IH.
Qed.

Lemma enumerate_from_snd {A} (xs : list A) start :
  (enumerate_from start xs).*2 = xs.
Proof.
  revert start. induction xs as [|x xs IH]; intros start; simpl; [done|].
  by rewrite IH.
Qed.

Lemma all_entities_keys processed_doc :
  key <$> all_entities processed_doc = seq 0 (length processed_doc).
Proof.
  unfold all_entities, enumerate. rewrite fold_loop_body. simpl.
  rewrite <- (enumerate_from_fst processed_doc 0).
  rewrite <- !list_fmap_compose. done.
Qed.

Lemma all_entities_length processed_doc :
  length (all_entities processed_doc) = length processed_doc.
Proof.
  rewrite <- (length_fmap key), all_entities_keys. apply length_seq.
Qed.

Lemma all_entities_projections processed_doc :
  Forall2 (λ doc d, Entity_type d = map label_ (ents doc)
                    ∧ Entity_identified d = map text (ents doc))
    processed_doc (all_entities processed_doc).
Proof.
  unfold all_entities, enumerate. rewrite fold_loop_body. simpl.
  generalize 0 as start.
  induction processed_doc as [|doc docs IH]; intros start; csimpl;
    constructor; auto.
Qed.

Lemma all_entities_parallel processed_doc :
  Forall parallel (all_entities processed_doc).
Proof.
  unfold all_entities. rewrite fold_loop_body. simpl.
  apply Forall_forall. intros d [item [-> _]]%list_elem_of_fmap.
  unfold parallel. simpl. by rewrite !length_map.
Qed.
End Enumerate_facts.

(** ** Sorting by the key column *)

Section sort_facts.
Context {K A : Type} (le : relation K) `{!RelDecision le} (by_key : A → K).

Lemma insert_by_Permutation x xs : insert_by le by_key x xs ≡ₚ x :: xs.
Proof.
  induction xs as [|y xs IH]; simpl; [done|].
  case_decide; [done|]. rewrite IH. apply Permutation_swap.
Qed.

Lemma sort_by_Permutation xs : sort_by le by_key xs ≡ₚ xs.
Proof.
  induction xs as [|x xs IH]; simpl; [done|].
  by rewrite insert_by_Permutation, IH.
Qed.

Lemma sort_by_length xs : length (sort_by le by_key xs) = length xs.
Proof. by rewrite sort_by_Permutation. Qed.

Lemma insert_by_HdRel `{!Total le} x y xs :
  ¬ le (by_key x) (by_key y) →
  HdRel le (by_key y) (by_key <$> xs) →
  HdRel le (by_key y) (by_key <$> insert_by le by_key x xs).
Proof.
  intros Hxy Hhd. assert (le (by_key y) (by_key x)) by (by destruct (total le (by_key x) (by_key y))).
  destruct xs as [|z xs]; simpl; [by constructor|].
  inv Hhd. case_decide; by constructor.
Qed.

Lemma insert_by_Sorted `{!Total le} x xs :
  Sorted le (by_key <$> xs) → Sorted le (by_key <$> insert_by le by_key x xs).
Proof.
  induction xs as [|y xs IH]; csimpl; intros Hs.
  - by repeat constructor.
  - case_decide as Hxy; csimpl.
    + constructor; [done | by constructor].
    + inv Hs. constructor; [by apply IH|]. by apply insert_by_HdRel.
Qed.

Lemma sort_by_Sorted `{!Total le} xs : Sorted le (by_key <$> sort_by le by_key xs).
Proof.
  induction xs as [|x xs IH]; simpl; [constructor|]. by apply insert_by_Sorted.
Qed.

(** A sequence whose keys already ascend is left as it is. *)
Lemma sort_by_sorted xs : Sorted le (by_key <$> xs) → sort_by le by_key xs = xs.
Proof.
  induction xs as [|x xs IH]; csimpl; intros Hs; [done|].
  inv Hs. rewrite IH by done.
  destruct xs as [|y xs]; simpl; [done|].
  match goal with H : HdRel _ _ _ |- _ => inv H end. by rewrite decide_True.
Qed.

Lemma NoDup_fmap_elem_inj (f : A → K) (xs : list A) x y :
  NoDup (f <$> xs) → x ∈ xs → y ∈ xs → f x = f y → x = y.
Proof.
  induction xs as [|z xs IH]; csimpl; intros Hnd Hx Hy Hf.
  - by apply elem_of_nil in Hx.
  - apply NoDup_cons in Hnd as [Hz Hnd].
    apply elem_of_cons in Hx as [->|Hx]; apply elem_of_cons in Hy as [->|Hy].
    + done.
    + destruct Hz. rewrite Hf. by apply list_elem_of_fmap_2.
    + destruct Hz. rewrite <- Hf. by apply list_elem_of_fmap_2.
    + by apply IH.
Qed.

Lemma StronglySorted_by_key xs :
  StronglySorted le (by_key <$> xs) →
  StronglySorted (λ x y, le (by_key x) (by_key y)) xs.
Proof.
  induction xs as [|x xs IH]; csimpl; intros Hs; [constructor|].
  apply StronglySorted_cons in Hs as [Hx Hs].
  constructor; [by apply IH|].
  rewrite Forall_fmap in Hx. eapply Forall_impl; [exact Hx|]. by intros y Hy.
Qed.

(** With pairwise distinct keys the ascending arrangement is unique, so
    every sorting algorithm returns what [sort_by] returns. *)
Lemma sorted_permutation_unique `{!PartialOrder le} xs ys :
  NoDup (by_key <$> xs) → xs ≡ₚ ys →
  Sorted le (by_key <$> xs) → Sorted le (by_key <$> ys) → xs = ys.
Proof.
  intros Hnd Hperm Hxs Hys.
  apply (Sorted_StronglySorted le), StronglySorted_by_key in Hxs, Hys.
  apply (StronglySorted_unique_strong (λ x y, le (by_key x) (by_key y)));
    [|done..].
  intros x y Hx Hy Hxy Hyx.
  apply (NoDup_fmap_elem_inj by_key xs); [done|done|by rewrite Hperm|].
  by apply (anti_symm le).
Qed.

Lemma sort_by_unique `{!PartialOrder le, !Total le} xs ys :
  NoDup (by_key <$> xs) → ys ≡ₚ xs → Sorted le (by_key <$> ys) →
  ys = sort_by le by_key xs.
Proof.
  intros Hnd Hperm Hys. apply sorted_permutation_unique; [| |done|].
  - by rewrite Hperm.
  - by rewrite sort_by_Permutation.
  - apply sort_by_Sorted.
Qed.
End sort_facts.

Lemma sort_by_fmap {K A B : Type} (le : relation K) `{!RelDecision le}
    (kA : A → K) (kB : B → K) (f : A → B) (xs : list A) :
  (∀ x, kB (f x) = kA x) →
  sort_by le kB (f <$> xs) = f <$> sort_by le kA xs.
Proof.
  intros Hk. induction xs as [|x xs IH]; csimpl; [done|].
  change (foldr (insert_by le kB) [] (f <$> xs)) with (sort_by le kB (f <$> xs)).
  change (foldr (insert_by le kA) [] xs) with (sort_by le kA xs).
  rewrite IH. generalize (sort_by le kA xs) as l. clear IH.
  induction l as [|y l IH]; csimpl; [done|].
  rewrite !Hk. case_decide; csimpl; [done|]. by rewrite IH.
Qed.

(** ** The explode cell, row by row *)

Section explode_facts.
Context {K : Type} `{EqDecision K}.
Implicit Types (rows : list (Row K)) (r : Row K) (d : DocumentEntityRecord K).

Lemma Series_explode_column (field : Row K → cell) rows :
  Series_explode (column field rows)
  = rows ≫= λ r, (λ v, (row_key r, Scalar v)) <$> explode_value (field r).
Proof.
  unfold Series_explode, column.
  induction rows as [|r rows IH]; csimpl; [done|]. by rewrite IH.
Qed.

Lemma Series_explode_index (field : Row K → cell) rows :
  (Series_explode (column field rows)).*1
  = rows ≫= λ r, replicate (length (explode_value (field r))) (row_key r).
Proof.
  rewrite Series_explode_column.
  induction rows as [|r rows IH]; csimpl; [done|].
  rewrite fmap_app, IH. f_equal.
  rewrite <- list_fmap_compose. clear IH.
  induction (explode_value (field r)) as [|v vs IHv]; csimpl; [done|].
  by rewrite IHv.
Qed.

Lemma explode_index_balanced rows :
  Forall balanced rows →
  (Series_explode (column row_Entity_type rows)).*1
  = (Series_explode (column row_Entity_identified rows)).*1.
Proof.
  intros Hb. rewrite !Series_explode_index.
  induction Hb as [|r rows Hr _ IH]; csimpl; [done|].
  by rewrite Hr, IH.
Qed.

Lemma zip_exploded_columns rows :
  Forall balanced rows →
  zip_with (λ t i : K * cell, MkRow t.1 t.2 i.2)
    (Series_explode (column row_Entity_type rows))
    (Series_explode (column row_Entity_identified rows))
  = rows ≫= explode_row.
Proof.
  intros Hb. rewrite !Series_explode_column.
  induction Hb as [|r rows Hr _ IH]; csimpl; [done|].
  rewrite zip_with_app by (by rewrite !length_fmap).
  rewrite IH. f_equal. unfold explode_row.
  by rewrite zip_with_fmap_l, zip_with_fmap_r.
Qed.

Lemma apply_explode_balanced rows :
  Forall balanced rows →
  apply_explode (Indexed rows) = Ok (Indexed (rows ≫= explode_row)).
Proof.
  intros Hb. unfold apply_explode.
  rewrite decide_True by (by apply explode_index_balanced).
  by rewrite zip_exploded_columns.
Qed.

Lemma explode_cell_balanced keys rows :
  Forall balanced rows →
  explode_cell keys (Frame rows) = Ok (Frame (rows ≫= explode_row)).
Proof.
  intros Hb. unfold explode_cell, set_index.
  by rewrite result_bind_Ok, (apply_explode_balanced _ Hb).
Qed.

(** The rows of a dictionary with parallel sequences. *)
Lemma explode_value_strings (l : list string) :
  explode_value (ListLike (Str <$> l))
  = match l with [] => [NaN] | _ :: _ => Str <$> l end.
Proof. by destruct l. Qed.

Lemma record_row_balanced d : parallel d → balanced (record_row d).
Proof.
  destruct d as [k ts ids]. unfold parallel, balanced, record_row.
  cbn [row_Entity_type row_Entity_identified Entity_type Entity_identified key].
  rewrite !explode_value_strings.
  destruct ts, ids; csimpl; try done. by rewrite !length_fmap.
Qed.

Lemma explode_record_row d :
  parallel d → explode_row (record_row d) = document_rows d.
Proof.
  destruct d as [k ts ids].
  unfold parallel, explode_row, document_rows, entity_rows, record_row.
  cbn [row_key row_Entity_type row_Entity_identified Entity_type Entity_identified key].
  rewrite !explode_value_strings.
  destruct ts as [|t ts], ids as [|i ids]; try done.
  intros _. by rewrite zip_with_fmap_l, zip_with_fmap_r.
Qed.

Lemma explode_record_rows (recs : list (DocumentEntityRecord K)) :
  Forall parallel recs →
  (record_row <$> recs) ≫= explode_row = recs ≫= document_rows.
Proof.
  induction 1 as [|d recs Hd _ IH]; csimpl; [done|].
  by rewrite IH, explode_record_row.
Qed.

(** The explode cell run directly on [pd.DataFrame(all_entities)]. *)
Lemma explode_cell_records keys (recs : list (DocumentEntityRecord K)) :
  recs ≠ [] → Forall parallel recs →
  explode_cell keys (pd_DataFrame recs) = Ok (Frame (recs ≫= document_rows)).
Proof.
  intros Hne Hpar. destruct recs as [|d recs]; [done|].
  unfold pd_DataFrame. rewrite explode_cell_balanced.
  - by rewrite explode_record_rows.
  - apply Forall_fmap. eapply Forall_impl; [exact Hpar|].
    intros d'. apply record_row_balanced.
Qed.

(** The sort cell followed by the explode cell. *)
Lemma sorted_then_exploded (le : relation K) `{!RelDecision le} keys
    (recs : list (DocumentEntityRecord K)) :
  recs ≠ [] → Forall parallel recs →
  (sort_values le keys (pd_DataFrame recs) ≫= explode_cell keys)
  = Ok (Frame (sort_by le key recs ≫= document_rows)).
Proof.
  intros Hne Hpar. destruct recs as [|d recs]; [done|].
  unfold pd_DataFrame, sort_values. rewrite result_bind_Ok.
  rewrite (sort_by_fmap le key row_key record_row) by done.
  assert (Forall parallel (sort_by le key (d :: recs))) as Hpar'.
  { by rewrite sort_by_Permutation. }
  rewrite explode_cell_balanced.
  - by rewrite explode_record_rows.
  - apply Forall_fmap. eapply Forall_impl; [exact Hpar'|].
    intros d'. apply record_row_balanced.
Qed.

(** Facts about the rows of one document. *)
Lemma document_rows_key d : Forall (λ r, row_key r = key d) (document_rows d).
Proof.
  unfold document_rows, entity_rows.
  destruct (Entity_type d) as [|t ts]; [by repeat constructor|].
  generalize (t :: ts) as l. intros l. revert l.
  induction (Entity_identified d) as [|i ids IH]; intros [|t' l]; csimpl;
    try constructor; auto.
Qed.

Lemma document_rows_length d :
  parallel d → length (document_rows d) = 1 `max` length (Entity_type d).
Proof.
  unfold parallel, document_rows, entity_rows. intros Hpar.
  destruct (Entity_type d) as [|t ts] eqn:Ht; [done|].
  rewrite length_zip_with. rewrite <- Hpar. simpl. lia.
Qed.

Lemma document_rows_empty d :
  Entity_type d = [] → document_rows d = [nan_row (key d)].
Proof. unfold document_rows. by intros ->. Qed.

Lemma document_rows_nonempty d :
  Entity_type d ≠ [] → document_rows d = entity_rows d.
Proof. unfold document_rows. by destruct (Entity_type d). Qed.

Lemma document_rows_flat d : Forall flat (document_rows d).
Proof.
  unfold document_rows, entity_rows.
  destruct (Entity_type d) as [|t ts].
  { repeat constructor; by eexists. }
  generalize (t :: ts) as l. intros l. revert l.
  induction (Entity_identified d) as [|i ids IH]; intros [|t' l]; csimpl;
    try constructor; auto.
  split; by eexists.
Qed.

Lemma rows_of_key_all k rows :
  Forall (λ r, row_key r = k) rows → rows_of_key k rows = rows.
Proof.
  unfold rows_of_key. induction 1 as [|r rows Hr _ IH]; [done|].
  by rewrite filter_cons_True, IH.
Qed.

Lemma rows_of_key_none k rows :
  Forall (λ r, row_key r ≠ k) rows → rows_of_key k rows = [].
Proof. unfold rows_of_key. apply filter_none. Qed.

Lemma rows_of_key_other k (recs : list (DocumentEntityRecord K)) :
  k ∉ key <$> recs → rows_of_key k (recs ≫= document_rows) = [].
Proof.
  intros Hk. apply rows_of_key_none, Forall_bind, Forall_forall.
  intros d Hd. eapply Forall_impl; [apply document_rows_key|].
  intros r -> <-. apply Hk. by apply list_elem_of_fmap_2.
Qed.

(** With distinct keys, the rows under a key are the rows of its document. *)
Lemma rows_of_key_document (recs : list (DocumentEntityRecord K)) d :
  NoDup (key <$> recs) → d ∈ recs →
  rows_of_key (key d) (recs ≫= document_rows) = document_rows d.
Proof.
  induction recs as [|d' recs IH]; csimpl; intros Hnd Hd.
  - by apply elem_of_nil in Hd.
  - apply NoDup_cons in Hnd as [Hd' Hnd].
    unfold rows_of_key in *. rewrite filter_app.
    apply elem_of_cons in Hd as [->|Hd].
    + fold (rows_of_key (key d') (document_rows d')).
      fold (rows_of_key (key d') (recs ≫= document_rows)).
      rewrite rows_of_key_all by apply document_rows_key.
      rewrite rows_of_key_other by done. by rewrite app_nil_r.
    + rewrite IH by done.
      fold (rows_of_key (key d) (document_rows d')).
      rewrite rows_of_key_none; [done|].
      eapply Forall_impl; [apply document_rows_key|].
      intros r -> Heq. apply Hd'. rewrite Heq. by apply list_elem_of_fmap_2.
Qed.
End explode_facts.

(** ** The category filter *)

Section filter_facts.
Context {K : Type} `{EqDecision K}.
Implicit Types (rows : list (Row K)) (r : Row K).

Lemma eq_str_has_category r label :
  eq_str (row_Entity_type r) label = true ↔ has_category label r.
Proof.
  unfold has_category. destruct (row_Entity_type r) as [items|[s|]]; simpl.
  - split; [done|]. discriminate.
  - rewrite String.eqb_eq. split; [by intros ->|congruence].
  - split; [done|]. discriminate.
Qed.

(** Selecting by the comparison mask is filtering by the category. *)
Lemma boolean_index_Entity_type_eq rows label :
  boolean_index rows (Entity_type_eq rows label) = filter (has_category label) rows.
Proof.
  induction rows as [|r rows IH]; csimpl; [done|].
  rewrite filter_cons, IH.
  destruct (eq_str (row_Entity_type r) label) eqn:Heq.
  - apply eq_str_has_category in Heq. by rewrite decide_True.
  - rewrite decide_False; [done|]. rewrite <- eq_str_has_category. congruence.
Qed.

Lemma sublist_filter_max {A} (P : A → Prop) `{!∀ x, Decision (P x)} (l k : list A) :
  l `sublist_of` k → Forall P l → l `sublist_of` filter P k.
Proof.
  induction 1 as [|x l k _ IH|x l k _ IH]; intros HP.
  - done.
  - apply Forall_cons in HP as [Hx HP]. rewrite filter_cons_True by done.
    by apply sublist_skip, IH.
  - rewrite filter_cons. case_decide; [apply sublist_cons|]; by apply IH.
Qed.

Lemma filter_Entity_type_Frame rows label :
  filter_Entity_type label (Frame rows) = Ok (Frame (filter (has_category label) rows)).
Proof. unfold filter_Entity_type. by rewrite boolean_index_Entity_type_eq. Qed.

Lemma filter_cell_Frame rows label :
  filter_cell label (Frame rows)
  = Ok (Frame (take 15 (filter (has_category label) rows))).
Proof. unfold filter_cell. by rewrite filter_Entity_type_Frame. Qed.
End filter_facts.

(** ** Exploding a table that is already flat *)

Section flat_facts.
Context {K : Type} `{EqDecision K}.
Implicit Types (rows : list (Row K)) (r : Row K).

(** A flat row is a key with two scalars; each fact below is then a
    computation. *)
Local Ltac flat_row r :=
  let k := fresh "k" in
  let t := fresh "t" in
  let i := fresh "i" in
  destruct r as [k ? ?]; intros [[t ?] [i ?]]; simpl in *; by subst.

Lemma flat_explode_row r : flat r → explode_row r = [r].
Proof. flat_row r. Qed.

Lemma flat_balanced r : flat r → balanced r.
Proof. flat_row r. Qed.

Lemma flat_explode_rows rows : Forall flat rows → rows ≫= explode_row = rows.
Proof.
  induction 1 as [|r rows Hr _ IH]; csimpl; [done|].
  by rewrite (flat_explode_row _ Hr), IH.
Qed.

Lemma one_element_explode_row r : flat r → explode_row (one_element_record r) = [r].
Proof. flat_row r. Qed.

Lemma one_element_balanced r : flat r → balanced (one_element_record r).
Proof. flat_row r. Qed.

Lemma one_element_explode_rows rows :
  Forall flat rows → (one_element_record <$> rows) ≫= explode_row = rows.
Proof.
  induction 1 as [|r rows Hr _ IH]; csimpl; [done|].
  by rewrite (one_element_explode_row _ Hr), IH.
Qed.

Lemma Series_explode_scalar (s : Series K) :
  Forall (λ p, ∃ v, p.2 = Scalar v) (Series_explode s).
Proof.
  unfold Series_explode. apply Forall_bind, Forall_forall.
  intros [label c] _. apply Forall_fmap, Forall_forall. intros v _. by exists v.
Qed.

Lemma zip_scalar_flat (s1 s2 : Series K) :
  Forall (λ p, ∃ v, p.2 = Scalar v) s1 →
  Forall (λ p, ∃ v, p.2 = Scalar v) s2 →
  Forall flat (zip_with (λ t i : K * cell, MkRow t.1 t.2 i.2) s1 s2).
Proof.
  intros H1. revert s2.
  induction H1 as [|p s1 Hp _ IH]; intros s2 H2; [constructor|].
  destruct H2 as [|q s2 Hq H2]; [constructor|].
  csimpl. constructor; [|by apply IH]. by split.
Qed.

(** Whatever the explode cell returns is flat. *)
Lemma explode_cell_flat keys (df : DataFrame K) rows :
  explode_cell keys df = Ok (Frame rows) → Forall flat rows.
Proof.
  unfold explode_cell. intros (indexed & Hset & Hrun)%result_bind_inv.
  apply result_bind_inv in Hrun as ([exploded] & Happ & Hreset).
  destruct indexed as [rows_in]. unfold apply_explode in Happ.
  case_decide; [|done]. simplify_eq/=.
  apply zip_scalar_flat; apply Series_explode_scalar.
Qed.
End flat_facts.

(** ** The single-document cell *)

Section SingleDocCell_facts.
Import SingleDocCell.

Lemma stmt_bind_Ok {A B : Type} (m : stmt A) (f : A → stmt B) h a h' :
  m h = Ok (a, h') → (m ≫= f) h = f a h'.
Proof. unfold mbind, stmt_bind. by intros ->. Qed.

Lemma append_Ok h xs items v :
  h !! xs = Some (PyList items) →
  append xs v h = Ok ((), <[xs := PyList (items ++ [v])]> h).
Proof. unfold append. by intros ->. Qed.

Lemma new_fresh (h : heap) : h !! fresh (dom h) = None.
Proof. apply not_elem_of_dom, is_fresh. Qed.

Lemma lookup_fresh_ne (h : heap) l o : h !! l = Some o → l ≠ fresh (dom h).
Proof. intros Hl ->. by rewrite new_fresh in Hl. Qed.

(** One turn of the loop. *)
Lemma loop_body_step h entities entity_type entity_identified types identified dicts e :
  loop_state h entities entity_type entity_identified types identified dicts →
  ∃ h' d,
    loop_body entities entity_type entity_identified e h = Ok ((), h')
    ∧ loop_state h' entities entity_type entity_identified
        (types ++ [label_ e]) (identified ++ [text e]) (dicts ++ [d]).
Proof.
  intros [(Het & Hei & Hti) Ht Hi He Hd Hnd].
  set (h1 := <[entity_type := PyList ((VStr <$> types) ++ [VStr (label_ e)])]> h).
  set (h2 := <[entity_identified := PyList ((VStr <$> identified) ++ [VStr (text e)])]> h1).
  set (d := fresh (dom h2)).
  set (h3 := <[d := PyDict [("Entity_type", VRef entity_type);
                            ("Entity_identified", VRef entity_identified)]]> h2).
  set (h4 := <[entities := PyList ((VRef <$> dicts) ++ [VRef d])]> h3).
  assert (h2 !! entities = Some (PyList (VRef <$> dicts))) as He2.
  { unfold h2, h1. by rewrite !lookup_insert_ne. }
  assert (entities ≠ d) as Hed by (by eapply lookup_fresh_ne).
  assert (entity_type ≠ d) as Htd.
  { eapply lookup_fresh_ne. unfold h2, h1.
    rewrite lookup_insert_ne by done. apply lookup_insert_eq. }
  assert (entity_identified ≠ d) as Hid.
  { eapply lookup_fresh_ne. unfold h2. apply lookup_insert_eq. }
  exists h4, d. split.
  - unfold loop_body.
    erewrite stmt_bind_Ok by (by apply append_Ok).
    erewrite stmt_bind_Ok; [|apply append_Ok; by rewrite lookup_insert_ne].
    erewrite stmt_bind_Ok by reflexivity.
    fold h1 h2 d h3. rewrite (append_Ok h3 entities (VRef <$> dicts)); [done|].
    unfold h3. by rewrite lookup_insert_ne.
  - split.
    + done.
    + unfold h4, h3, h2, h1. rewrite !lookup_insert_ne by done.
      rewrite lookup_insert_eq. by rewrite fmap_app.
    + unfold h4, h3, h2. rewrite !lookup_insert_ne by done.
      rewrite lookup_insert_eq. by rewrite fmap_app.
    + unfold h4. rewrite lookup_insert_eq. by rewrite fmap_app.
    + apply Forall_app. split.
      * eapply Forall_impl; [exact Hd|]. intros d' Hd'. simpl in *.
        assert (d' ≠ d).
        { eapply lookup_fresh_ne. unfold h2, h1.
          rewrite !lookup_insert_ne; [exact Hd'| |]; intros <-; congruence. }
        unfold h4, h3, h2, h1.
        rewrite !lookup_insert_ne; [exact Hd'|..]; try done; intros <-; congruence.
      * constructor; [|constructor]. unfold h4, h3.
        rewrite lookup_insert_ne by done. apply lookup_insert_eq.
    + apply NoDup_app. split; [done|]. split; [|apply NoDup_singleton].
      intros d' Hd' ->%list_elem_of_singleton.
      rewrite Forall_forall in Hd. specialize (Hd _ Hd').
      assert (h2 !! d = None) as Hnone by apply new_fresh.
      unfold h2, h1 in Hnone.
      rewrite !lookup_insert_ne in Hnone by done. congruence.
Qed.

(** The whole loop. *)
Lemma for_each_loop_body spans h entities entity_type entity_identified
    types identified dicts :
  loop_state h entities entity_type entity_identified types identified dicts →
  ∃ h' dicts',
    for_each spans (loop_body entities entity_type entity_identified) h = Ok ((), h')
    ∧ length dicts' = length spans
    ∧ loop_state h' entities entity_type entity_identified
        (types ++ map label_ spans) (identified ++ map text spans) (dicts ++ dicts').
Proof.
  revert h types identified dicts.
  induction spans as [|e spans IH]; intros h types identified dicts Hst; simpl.
  - exists h, []. by rewrite !app_nil_r.
  - destruct (loop_body_step _ _ _ _ _ _ _ e Hst) as (h1 & d & Hbody & Hst1).
    destruct (IH _ _ _ _ Hst1) as (h' & dicts' & Hloop & Hlen & Hst').
    exists h', (d :: dicts'). split; [|split].
    + by erewrite stmt_bind_Ok by exact Hbody.
    + simpl. by rewrite Hlen.
    + by rewrite <- !app_assoc in Hst'.
Qed.

(** The store right after the three lists have been created. *)
Lemma cell_prologue (h : heap) :
  let entities := fresh (dom h) in
  let h1 := <[entities := PyList []]> h in
  let entity_type := fresh (dom h1) in
  let h2 := <[entity_type := PyList []]> h1 in
  let entity_identified := fresh (dom h2) in
  let h3 := <[entity_identified := PyList []]> h2 in
  loop_state h3 entities entity_type entity_identified [] [] [].
Proof.
  intros entities h1 entity_type h2 entity_identified h3.
  assert (entities ≠ entity_type) as Het.
  { eapply lookup_fresh_ne. unfold h1. apply lookup_insert_eq. }
  assert (entity_type ≠ entity_identified) as Hti.
  { eapply lookup_fresh_ne. unfold h2. apply lookup_insert_eq. }
  assert (entities ≠ entity_identified) as Hei.
  { eapply lookup_fresh_ne. unfold h2, h1.
    rewrite lookup_insert_ne by done. apply lookup_insert_eq. }
  split; try done.
  - unfold h3, h2. rewrite lookup_insert_ne by done. apply lookup_insert_eq.
  - unfold h3. apply lookup_insert_eq.
  - unfold h3, h2, h1. rewrite !lookup_insert_ne by done. apply lookup_insert_eq.
  - constructor.
Qed.

Lemma mapM_read_str (l : list string) : mapM read_str (VStr <$> l) = Some l.
Proof. apply mapM_Some. induction l; csimpl; by constructor. Qed.

(** What [print] shows for a store in a loop state. *)
Lemma print_loop_state h entities entity_type entity_identified types identified dicts :
  loop_state h entities entity_type entity_identified types identified dicts →
  print_entities h entities = Some (replicate (length dicts) (types, identified)).
Proof.
  intros [_ Ht Hi He Hd _]. unfold print_entities. rewrite He.
  apply mapM_Some. clear He.
  induction Hd as [|d dicts Hd _ IH]; csimpl; constructor; [|done].
  unfold read_entity_dict. rewrite Hd. unfold read_str_list.
  rewrite Ht, Hi, !mapM_read_str. done.
Qed.
End SingleDocCell_facts.

(** ** Counting and ordering the exploded rows *)

Section table_facts.
Context {K : Type} `{EqDecision K}.
Implicit Types (recs : list (DocumentEntityRecord K)) (d : DocumentEntityRecord K).

Lemma entity_rows_typed d :
  Forall (λ r : Row K, row_Entity_type r ≠ Scalar NaN) (entity_rows d).
Proof.
  unfold entity_rows. generalize (Entity_type d) as ts.
  induction (Entity_identified d) as [|i ids IH]; intros [|t ts]; csimpl;
    try constructor; auto.
Qed.

Lemma entity_rows_of_document d :
  filter (λ r : Row K, row_Entity_type r ≠ Scalar NaN) (document_rows d)
  = entity_rows d.
Proof.
  unfold document_rows. destruct (Entity_type d) as [|t ts] eqn:Ht.
  - unfold entity_rows. rewrite Ht. csimpl.
    rewrite filter_cons_False; [done|]. simpl. by intros [].
  - pose proof (entity_rows_typed d) as Hall.
    induction Hall as [|r rows Hr _ IH]; [done|].
    by rewrite filter_cons_True, IH.
Qed.

(** Dropping the placeholder rows leaves one row per (category, text)
    pair, document by document. *)
Lemma entity_rows_of_table recs :
  filter (λ r : Row K, row_Entity_type r ≠ Scalar NaN) (recs ≫= document_rows)
  = recs ≫= entity_rows.
Proof.
  induction recs as [|d recs IH]; csimpl; [done|].
  by rewrite filter_app, entity_rows_of_document, IH.
Qed.

Lemma table_length recs :
  Forall parallel recs →
  length (recs ≫= document_rows)
  = sum_list_with (λ d, 1 `max` length (Entity_type d)) recs.
Proof.
  induction 1 as [|d recs Hd _ IH]; csimpl; [done|].
  by rewrite length_app, document_rows_length, IH.
Qed.

Lemma table_without_empty_documents recs :
  Forall (λ d, Entity_type d ≠ []) recs →
  recs ≫= document_rows = recs ≫= entity_rows
  ∧ sum_list_with (λ d, 1 `max` length (Entity_type d)) recs
    = sum_list_with (λ d, length (Entity_type d)) recs.
Proof.
  induction 1 as [|d recs Hd _ [IH1 IH2]]; csimpl; [done|].
  rewrite IH1, IH2, document_rows_nonempty by done. split; [done|].
  destruct (Entity_type d); [done|]. simpl. lia.
Qed.
End table_facts.

Lemma entity_rows_built nlp open_read a d txt :
  built_from nlp open_read a d → open_read a = Ok txt →
  entity_rows d
  = (λ e, MkRow a (Scalar (Str (label_ e))) (Scalar (Str (text e)))) <$> ents (nlp txt).
Proof.
  intros (txt' & Ha & ->) Ha'. rewrite Ha in Ha'. injection Ha' as <-.
  unfold entity_rows. simpl.
  induction (ents (nlp txt')) as [|e spans IH]; csimpl; [done|]. by rewrite IH.
Qed.

Lemma built_from_nonempty nlp open_read a d txt :
  built_from nlp open_read a d → open_read a = Ok txt →
  ents (nlp txt) ≠ [] → Entity_type d ≠ [].
Proof.
  intros (txt' & Ha & ->) Ha' Hne. rewrite Ha in Ha'. injection Ha' as <-.
  simpl. by destruct (ents (nlp txt')).
Qed.

Lemma Sorted_seq (start len : nat) : Sorted (≤) (seq start len).
Proof.
  revert start. induction len as [|len IH]; intros start; simpl; [constructor|].
  constructor; [apply IH|]. destruct len; simpl; constructor. lia.
Qed.

(** ** The file form of the notebook *)

(** The table of readable, pairwise distinct files: under the name of a
    file the table holds the rows of that file's dictionary. *)
Lemma file_table_rows nlp open_read (articles : list string) a d :
  NoDup articles → Forall (readable open_read) articles →
  a ∈ articles → built_from nlp open_read a d →
  ∃ rows, FileNotebook.df_NER nlp open_read articles = Ok (Frame rows)
        ∧ rows_of_key a rows = document_rows d.
Proof.
  intros Hnd Hread Ha Hd.
  destruct (all_entities_built nlp open_read articles Hread) as (recs & Hrun & Hbuilt).
  pose proof (built_keys _ _ _ _ Hbuilt) as Hkeys.
  assert (d ∈ recs) as Hin.
  { apply list_elem_of_lookup in Ha as [i Hi].
    destruct (Forall2_lookup_l _ _ _ _ _ Hbuilt Hi) as (d' & Hd' & Hbd').
    destruct Hd as (txt & Hopen & ->), Hbd' as (txt' & Hopen' & ->).
    rewrite Hopen in Hopen'. injection Hopen' as <-.
    by eapply list_elem_of_lookup_2. }
  exists (sort_by String.le key recs ≫= document_rows). split.
  - unfold FileNotebook.df_NER. rewrite Hrun, result_bind_Ok.
    apply (sorted_then_exploded String.le).
    + intros ->. by apply elem_of_nil in Hin.
    + by eapply built_parallel.
  - rewrite <- (built_from_key _ _ _ _ Hd). apply rows_of_key_document.
    + by rewrite sort_by_Permutation, Hkeys.
    + by rewrite sort_by_Permutation.
Qed.

(** A file for which the tagger emits nothing is still a key of the
    table. *)
Lemma file_without_entities_row nlp open_read (articles : list string) a txt :
  NoDup articles → Forall (readable open_read) articles →
  a ∈ articles → open_read a = Ok txt → ents (nlp txt) = [] →
  ∃ rows, FileNotebook.df_NER nlp open_read articles = Ok (Frame rows)
        ∧ rows_of_key a rows = [nan_row a].
Proof.
  intros Hnd Hread Ha Hopen Hnone.
  apply (file_table_rows nlp open_read articles a (EntDict a [] [])); try done.
  exists txt. by rewrite Hnone.
Qed.

(** ** The [enumerate] form of the notebook *)

(** Its table lists the documents in input order. *)
Lemma enumerate_table_order (processed_doc : list Doc) :
  processed_doc ≠ [] →
  EnumerateNotebook.df_NER processed_doc
  = Ok (Frame (EnumerateLoop.all_entities processed_doc ≫= document_rows)).
Proof.
  intros Hne. unfold EnumerateNotebook.df_NER, EnumerateNotebook.table,
    EnumerateNotebook.sort_cell.
  rewrite sorted_then_exploded.
  - rewrite sort_by_sorted; [done|].
    rewrite all_entities_keys. apply Sorted_seq.
  - intros Hnil. apply (f_equal length) in Hnil.
    rewrite all_entities_length in Hnil. by destruct processed_doc.
  - apply all_entities_parallel.
Qed.

(** ** Worked examples *)

(** Two documents, the second without entities. *)
Example sample_accumulated :
  FileLoop.all_entities Sample.nlp Sample.open_read ["doc1"; "doc2"]
  = Ok Sample.records.
Proof. reflexivity. Qed.

Example sample_table :
  FileNotebook.df_NER Sample.nlp Sample.open_read ["doc1"; "doc2"]
  = Ok (Frame Sample.exploded).
Proof. reflexivity. Qed.

Example sample_filter_GPE :
  filter_cell "GPE" (Frame Sample.exploded)
  = Ok (Frame [Sample.entity "doc1" "GPE" "Paris"]).
Proof. reflexivity. Qed.

Example sample_filter_LAW :
  filter_cell "LAW" (Frame Sample.exploded) = Ok (Frame []).
Proof. reflexivity. Qed.

(** The comparison is exact: a lower-case label matches nothing. *)
Example sample_filter_case :
  filter_cell "gpe" (Frame Sample.exploded) = Ok (Frame []).
Proof. reflexivity. Qed.

(** Without documents [pd.DataFrame([])] has no column to sort by. *)
Example empty_collection_raises :
  FileNotebook.df_NER Sample.nlp Sample.open_read [] = Raise (KeyError "File_name")
  ∧ EnumerateNotebook.df_NER [] = Raise (KeyError "Doc_index").
Proof. split; reflexivity. Qed.

(** A file that cannot be read stops the accumulation loop. *)
Example unreadable_file_raises :
  FileLoop.all_entities Sample.nlp Sample.open_read ["doc1"; "missing"; "doc2"]
  = Raise (OSError "missing").
Proof. reflexivity. Qed.

(** Sequences of different lengths cannot be put together again. *)
Example unequal_sequences_raise :
  explode_cell "File_name"
    (pd_DataFrame [EntDict "doc1" ["ORG"; "GPE"] ["Apple"]])
  = Raise (ValueError "cannot reindex on an axis with duplicate labels").
Proof. reflexivity. Qed.

(** * The claims *)

(** C1 (as the code has it).  [Series.explode] turns an empty list into
    one [NaN] entry, so a document without entities does not vanish from
    the exploded table: it contributes exactly one row, its key with [NaN]
    in both entity columns, placed between the rows of the documents before
    it and those of the documents after it.  Its key is therefore still
    present, after the explode cell alone and after the sort cell followed
    by the explode cell; when the keys are pairwise distinct the
    placeholder is the only row under that key. *)
Theorem empty_document_keeps_one_row {K : Type} `{EqDecision K}
    (le : relation K) `{!RelDecision le} (keys : string)
    (recs : list (DocumentEntityRecord K)) (d : DocumentEntityRecord K) :
  d ∈ recs → Forall parallel recs → Entity_type d = [] →
  ∃ rows sorted_rows,
    explode_cell keys (pd_DataFrame recs) = Ok (Frame rows)
    ∧ (sort_values le keys (pd_DataFrame recs) ≫= explode_cell keys)
      = Ok (Frame sorted_rows)
    ∧ nan_row (key d) ∈ rows
    ∧ nan_row (key d) ∈ sorted_rows
    ∧ (∀ before after, recs = before ++ d :: after →
         rows = (before ≫= document_rows) ++ nan_row (key d)
                  :: (after ≫= document_rows))
    ∧ (NoDup (key <$> recs) →
         rows_of_key (key d) rows = [nan_row (key d)]
         ∧ rows_of_key (key d) sorted_rows = [nan_row (key d)]).
Proof.
  intros Hd Hpar Hempty.
  assert (recs ≠ []) as Hne by (intros ->; by apply elem_of_nil in Hd).
  assert (d ∈ sort_by le key recs) as Hd' by (by rewrite sort_by_Permutation).
  assert (∀ l : list (DocumentEntityRecord K), d ∈ l →
            nan_row (key d) ∈ l ≫= document_rows) as Hin.
  { intros l Hl. apply list_elem_of_bind. exists d. split; [|done].
    rewrite document_rows_empty by done. apply list_elem_of_singleton. done. }
  exists (recs ≫= document_rows), (sort_by le key recs ≫= document_rows).
  split; [by apply explode_cell_records|].
  split; [by apply sorted_then_exploded|].
  split; [by apply Hin|]. split; [by apply Hin|]. split.
  - intros before after ->.
    by rewrite bind_app, bind_cons, document_rows_empty.
  - intros Hnd. split.
    + by rewrite rows_of_key_document, document_rows_empty.
    + rewrite rows_of_key_document, document_rows_empty; try done.
      by rewrite sort_by_Permutation.
Qed.

Lemma empty_document_keeps_one_row_witness :
  ∃ rows sorted_rows,
    explode_cell "File_name" (pd_DataFrame Sample.records) = Ok (Frame rows)
    ∧ FileNotebook.table Sample.records = Ok (Frame sorted_rows)
    ∧ nan_row "doc2" ∈ rows
    ∧ nan_row "doc2" ∈ sorted_rows
    ∧ (∀ before after, Sample.records = before ++ EntDict "doc2" [] [] :: after →
         rows = (before ≫= document_rows) ++ nan_row "doc2"
                  :: (after ≫= document_rows))
    ∧ (NoDup (key <$> Sample.records) →
         rows_of_key "doc2" rows = [nan_row "doc2"]
         ∧ rows_of_key "doc2" sorted_rows = [nan_row "doc2"]).
Proof.
  apply (empty_document_keeps_one_row String.le "File_name" Sample.records
           (EntDict "doc2" [] [])).
  - unfold Sample.records. apply elem_of_cons. right. apply elem_of_cons. by left.
  - repeat constructor.
  - reflexivity.
Defined.

(** The claim as stated fails on the sample collection: ["doc2"] has no
    entities and is still a key of the exploded table. *)
Lemma empty_document_vanishes_counterexample :
  EntDict "doc2" [] [] ∈ Sample.records
  ∧ explode_cell "File_name" (pd_DataFrame Sample.records) = Ok (Frame Sample.exploded)
  ∧ FileNotebook.table Sample.records = Ok (Frame Sample.exploded)
  ∧ "doc2" ∈ row_key <$> Sample.exploded
  ∧ length (rows_of_key "doc2" Sample.exploded) = 1.
Proof.
  split. { unfold Sample.records. apply elem_of_cons. right. apply elem_of_cons. by left. }
  split; [reflexivity|]. split; [reflexivity|]. split; [|reflexivity].
  unfold Sample.exploded. csimpl. do 3 (apply elem_of_cons; right).
  apply elem_of_cons. by left.
Qed.

(** C2 (as the code has it).  For a non-empty list of dictionaries with
    parallel sequences the explode cell returns one row per (category,
    text) pair, none duplicated and none lost, plus one placeholder row per
    dictionary without entities: the number of rows is the sum over the
    dictionaries of [max 1 (length Entity_type)].  Sorting first does not
    change the count.  When no dictionary is empty the rows are exactly the
    pairs and the count is the sum of the lengths. *)
Theorem explode_cardinality {K : Type} `{EqDecision K}
    (le : relation K) `{!RelDecision le} (keys : string)
    (recs : list (DocumentEntityRecord K)) :
  recs ≠ [] → Forall parallel recs →
  ∃ rows sorted_rows,
    explode_cell keys (pd_DataFrame recs) = Ok (Frame rows)
    ∧ (sort_values le keys (pd_DataFrame recs) ≫= explode_cell keys)
      = Ok (Frame sorted_rows)
    ∧ length rows = sum_list_with (λ d, 1 `max` length (Entity_type d)) recs
    ∧ length sorted_rows = length rows
    ∧ filter (λ r : Row K, row_Entity_type r ≠ Scalar NaN) rows = recs ≫= entity_rows
    ∧ (Forall (λ d, Entity_type d ≠ []) recs →
         rows = recs ≫= entity_rows
         ∧ length rows = sum_list_with (λ d, length (Entity_type d)) recs).
Proof.
  intros Hne Hpar.
  exists (recs ≫= document_rows), (sort_by le key recs ≫= document_rows).
  split; [by apply explode_cell_records|].
  split; [by apply sorted_then_exploded|].
  split; [by apply table_length|].
  split.
  { rewrite !table_length; [|done|by rewrite sort_by_Permutation].
    by rewrite sort_by_Permutation. }
  split; [apply entity_rows_of_table|].
  intros Hfull. destruct (table_without_empty_documents recs Hfull) as [Hrows Hsum].
  split; [done|]. by rewrite table_length, Hsum.
Qed.

Lemma explode_cardinality_witness :
  ∃ rows sorted_rows,
    explode_cell "File_name" (pd_DataFrame Sample.records) = Ok (Frame rows)
    ∧ FileNotebook.table Sample.records = Ok (Frame sorted_rows)
    ∧ length rows = sum_list_with (λ d, 1 `max` length (Entity_type d)) Sample.records
    ∧ length sorted_rows = length rows
    ∧ filter (λ r : Row string, row_Entity_type r ≠ Scalar NaN) rows
      = Sample.records ≫= entity_rows
    ∧ (Forall (λ d, Entity_type d ≠ []) Sample.records →
         rows = Sample.records ≫= entity_rows
         ∧ length rows = sum_list_with (λ d, length (Entity_type d)) Sample.records).
Proof.
  apply (explode_cardinality String.le "File_name" Sample.records).
  - discriminate.
  - repeat constructor.
Defined.

(** The claim as stated fails on the sample collection: the sequences hold
    three entities in all, the exploded table has four rows. *)
Lemma cardinality_law_counterexample :
  sum_list_with (λ d, length (Entity_type d)) Sample.records = 3
  ∧ explode_cell "File_name" (pd_DataFrame Sample.records) = Ok (Frame Sample.exploded)
  ∧ FileNotebook.table Sample.records = Ok (Frame Sample.exploded)
  ∧ length Sample.exploded = 4.
Proof. by repeat split. Qed.

(** C3 (as the code has it).  Between accumulation and explode the
    notebook sorts the frame by ['File_name'], so for readable, pairwise
    distinct files the documents of the exploded table appear in ascending
    order of their file names, which is the input order when the input is
    already ascending.  The rows of one document are its entities in the
    order the tagger emitted them.  The explode cell itself does not
    reorder anything: it returns the explosions of the rows of the frame it
    is given, one after the other in the frame's order. *)
Theorem table_order
    (nlp : string → Doc) (open_read : string → result string)
    (articles : list string) :
  articles ≠ [] → NoDup articles → Forall (readable open_read) articles →
  ∃ recs sorted,
    FileLoop.all_entities nlp open_read articles = Ok recs
    ∧ key <$> recs = articles
    ∧ sorted ≡ₚ recs
    ∧ Sorted String.le (key <$> sorted)
    ∧ FileNotebook.df_NER nlp open_read articles = Ok (Frame (sorted ≫= document_rows))
    ∧ (∀ a txt, a ∈ articles → open_read a = Ok txt → ents (nlp txt) ≠ [] →
         rows_of_key a (sorted ≫= document_rows)
         = (λ e, MkRow a (Scalar (Str (label_ e))) (Scalar (Str (text e))))
             <$> ents (nlp txt))
    ∧ (Sorted String.le articles → sorted = recs)
    ∧ (∀ rows_in : list (Row string), Forall balanced rows_in →
         explode_cell "File_name" (Frame rows_in)
         = Ok (Frame (rows_in ≫= explode_row))).
Proof.
  intros Hne Hnd Hread.
  destruct (all_entities_built nlp open_read articles Hread) as (recs & Hrun & Hbuilt).
  pose proof (built_keys _ _ _ _ Hbuilt) as Hkeys.
  pose proof (built_parallel _ _ _ _ Hbuilt) as Hpar.
  assert (recs ≠ []) as Hrecs by (intros ->; by destruct articles).
  exists recs, (sort_by String.le key recs).
  split; [done|]. split; [done|].
  split; [apply sort_by_Permutation|].
  split; [apply sort_by_Sorted; apply _|].
  split.
  { unfold FileNotebook.df_NER. rewrite Hrun, result_bind_Ok.
    by apply (sorted_then_exploded String.le). }
  split.
  { intros a txt Ha Hopen Hspans.
    apply list_elem_of_lookup in Ha as [i Hi].
    destruct (Forall2_lookup_l _ _ _ _ _ Hbuilt Hi) as (d & Hd & Hbd).
    rewrite <- (built_from_key _ _ _ _ Hbd).
    rewrite rows_of_key_document.
    - rewrite document_rows_nonempty by eauto using built_from_nonempty.
      rewrite (built_from_key _ _ _ _ Hbd). by eapply entity_rows_built.
    - by rewrite sort_by_Permutation, Hkeys.
    - rewrite sort_by_Permutation. by eapply list_elem_of_lookup_2. }
  split.
  { intros Hsorted. apply sort_by_sorted. by rewrite Hkeys. }
  intros rows_in. apply explode_cell_balanced.
Qed.

Lemma table_order_witness :
  ∃ recs sorted,
    FileLoop.all_entities Sample.nlp Sample.open_read ["files/2.txt"; "files/10.txt"]
    = Ok recs
    ∧ key <$> recs = ["files/2.txt"; "files/10.txt"]
    ∧ sorted ≡ₚ recs
    ∧ Sorted String.le (key <$> sorted)
    ∧ FileNotebook.df_NER Sample.nlp Sample.open_read ["files/2.txt"; "files/10.txt"]
      = Ok (Frame (sorted ≫= document_rows))
    ∧ (∀ a txt, a ∈ ["files/2.txt"; "files/10.txt"] → Sample.open_read a = Ok txt →
         ents (Sample.nlp txt) ≠ [] →
         rows_of_key a (sorted ≫= document_rows)
         = (λ e, MkRow a (Scalar (Str (label_ e))) (Scalar (Str (text e))))
             <$> ents (Sample.nlp txt))
    ∧ (Sorted String.le ["files/2.txt"; "files/10.txt"] → sorted = recs)
    ∧ (∀ rows_in : list (Row string), Forall balanced rows_in →
         explode_cell "File_name" (Frame rows_in)
         = Ok (Frame (rows_in ≫= explode_row))).
Proof.
  apply (table_order Sample.nlp Sample.open_read ["files/2.txt"; "files/10.txt"]).
  - discriminate.
  - apply NoDup_cons. split; [|apply NoDup_singleton].
    intros Hin%list_elem_of_singleton. discriminate.
  - repeat constructor; eexists; reflexivity.
Defined.

(** The claim as stated fails on two files given in the order
    ["files/2.txt"], ["files/10.txt"]: the table lists ["files/10.txt"]
    first. *)
Lemma input_order_counterexample :
  ∃ rows,
    FileNotebook.df_NER Sample.nlp Sample.open_read ["files/2.txt"; "files/10.txt"]
    = Ok (Frame rows)
    ∧ row_key <$> rows
      = ["files/10.txt"; "files/10.txt"; "files/10.txt";
         "files/2.txt"; "files/2.txt"; "files/2.txt"]
    ∧ remove_dups (row_key <$> rows) ≠ ["files/2.txt"; "files/10.txt"].
Proof. eexists. split; [reflexivity|]. split; [reflexivity|]. discriminate. Qed.

(** C4. The accumulation loop, run on files that can all be read, returns
    exactly one dictionary per input file, in input order: the keys of the
    result are the input list itself.  A file for which the tagger emits
    nothing still gets its dictionary, with two empty sequences, at the
    file's own position; and when the file names are pairwise distinct
    every name is the key of exactly one dictionary. *)
Theorem accumulation_one_record_per_document
    (nlp : string → Doc) (open_read : string → result string)
    (articles : list string) :
  Forall (readable open_read) articles →
  ∃ recs,
    FileLoop.all_entities nlp open_read articles = Ok recs
    ∧ length recs = length articles
    ∧ key <$> recs = articles
    ∧ (∀ i a txt, articles !! i = Some a → open_read a = Ok txt →
         ents (nlp txt) = [] → recs !! i = Some (EntDict a [] []))
    ∧ (NoDup articles → ∀ a, a ∈ articles →
         length (filter (λ d, key d = a) recs) = 1).
Proof.
  intros Hread.
  destruct (all_entities_built nlp open_read articles Hread) as (recs & Hrun & Hbuilt).
  exists recs. split; [done|].
  pose proof (built_keys _ _ _ _ Hbuilt) as Hkeys.
  split; [by rewrite <- Hkeys, length_fmap|].
  split; [done|]. split.
  - intros i a txt Hi Ha Hnone.
    destruct (Forall2_lookup_l _ _ _ _ _ Hbuilt Hi) as (d & Hd & txt' & Ha' & ->).
    rewrite Ha in Ha'. injection Ha' as <-. by rewrite Hd, Hnone.
  - intros Hnd a Ha. apply key_count_NoDup; by rewrite Hkeys.
Qed.

Lemma accumulation_one_record_per_document_witness :
  ∃ recs,
    FileLoop.all_entities Sample.nlp Sample.open_read ["doc1"; "doc2"] = Ok recs
    ∧ length recs = 2
    ∧ key <$> recs = ["doc1"; "doc2"]
    ∧ (∀ i a txt, ["doc1"; "doc2"] !! i = Some a → Sample.open_read a = Ok txt →
         ents (Sample.nlp txt) = [] → recs !! i = Some (EntDict a [] []))
    ∧ (NoDup ["doc1"; "doc2"] → ∀ a, a ∈ ["doc1"; "doc2"] →
         length (filter (λ d, key d = a) recs) = 1).
Proof.
  apply (accumulation_one_record_per_document Sample.nlp Sample.open_read
           ["doc1"; "doc2"]).
  repeat constructor; eexists; reflexivity.
Defined.

(** C5. Every dictionary the accumulation loop builds holds two sequences
    of the same length, which is the number of spans the tagger emitted for
    the file; position [i] of [Entity_type] is the label of the [i]-th span
    and position [i] of [Entity_identified] is its text.  When the tagger
    emits nothing both sequences are empty. *)
Theorem parallel_sequences_aligned
    (nlp : string → Doc) (open_read : string → result string)
    (articles : list string) :
  Forall (readable open_read) articles →
  ∃ recs,
    FileLoop.all_entities nlp open_read articles = Ok recs
    ∧ Forall2 (λ a d, ∃ txt,
        open_read a = Ok txt
        ∧ length (Entity_type d) = length (Entity_identified d)
        ∧ length (Entity_type d) = length (ents (nlp txt))
        ∧ (∀ i, Entity_type d !! i = label_ <$> ents (nlp txt) !! i)
        ∧ (∀ i, Entity_identified d !! i = text <$> ents (nlp txt) !! i)
        ∧ (ents (nlp txt) = [] → Entity_type d = [] ∧ Entity_identified d = []))
      articles recs.
Proof.
  intros Hread.
  destruct (all_entities_built nlp open_read articles Hread) as (recs & Hrun & Hbuilt).
  exists recs. split; [done|].
  eapply Forall2_impl; [exact Hbuilt|].
  intros a d (txt & Ha & ->). exists txt. simpl.
  rewrite !length_map. do 3 (split; [done|]).
  split; [intros i; apply list_lookup_fmap|].
  split; [intros i; apply list_lookup_fmap|].
  by intros ->.
Qed.

Lemma parallel_sequences_aligned_witness :
  ∃ recs,
    FileLoop.all_entities Sample.nlp Sample.open_read ["doc1"; "doc2"] = Ok recs
    ∧ Forall2 (λ a d, ∃ txt,
        Sample.open_read a = Ok txt
        ∧ length (Entity_type d) = length (Entity_identified d)
        ∧ length (Entity_type d) = length (ents (Sample.nlp txt))
        ∧ (∀ i, Entity_type d !! i = label_ <$> ents (Sample.nlp txt) !! i)
        ∧ (∀ i, Entity_identified d !! i = text <$> ents (Sample.nlp txt) !! i)
        ∧ (ents (Sample.nlp txt) = [] → Entity_type d = [] ∧ Entity_identified d = []))
      ["doc1"; "doc2"] recs.
Proof.
  apply (parallel_sequences_aligned Sample.nlp Sample.open_read ["doc1"; "doc2"]).
  repeat constructor; eexists; reflexivity.
Defined.

(** C6. For every table and every label, the category filter returns the
    rows whose [Entity_type] is exactly that string, in their original
    relative order: the result is a subsequence of the table, all of its
    rows carry the label, and it contains every subsequence of the table
    whose rows all carry the label.  It is empty when no row carries the
    label, and in particular on a table without rows.  The displayed cell
    shows the first fifteen of these rows. *)
Theorem category_filter_correct {K : Type} `{EqDecision K}
    (rows : list (Row K)) (label : string) :
  ∃ selected,
    filter_Entity_type label (Frame rows) = Ok (Frame selected)
    ∧ selected = filter (has_category label) rows
    ∧ selected `sublist_of` rows
    ∧ Forall (λ r, row_Entity_type r = Scalar (Str label)) selected
    ∧ (∀ other, other `sublist_of` rows →
         Forall (λ r, row_Entity_type r = Scalar (Str label)) other →
         other `sublist_of` selected)
    ∧ ((∀ r, r ∈ rows → row_Entity_type r ≠ Scalar (Str label)) → selected = [])
    ∧ (rows = [] → selected = [])
    ∧ filter_cell label (Frame rows) = Ok (Frame (take 15 selected)).
Proof.
  exists (filter (has_category label) rows).
  split; [apply filter_Entity_type_Frame|]. split; [done|].
  split; [apply sublist_filter|].
  split. { apply Forall_forall. by intros r [Hr _]%list_elem_of_filter. }
  split. { intros other Hsub Hall. by apply sublist_filter_max. }
  split. { intros Hnone. apply filter_none, Forall_forall. intros r Hr. by apply Hnone. }
  split. { by intros ->. }
  apply filter_cell_Frame.
Qed.

Lemma category_filter_correct_witness :
  ∃ selected,
    filter_Entity_type "GPE" (Frame Sample.exploded) = Ok (Frame selected)
    ∧ selected = [Sample.entity "doc1" "GPE" "Paris"]
    ∧ filter_Entity_type "gpe" (Frame Sample.exploded) = Ok (Frame []).
Proof.
  destruct (category_filter_correct Sample.exploded "GPE")
    as (selected & Hrun & -> & _).
  exists (filter (has_category "GPE") Sample.exploded).
  split; [exact Hrun|]. split; reflexivity.
Defined.

(** C7. Filtering by a label that no row carries, whether or not the label
    belongs to the tagger's vocabulary, raises nothing: the filter, and the
    filter cell with its fifteen-row cap, return a table without rows. *)
Theorem unknown_category_filter_is_empty {K : Type} `{EqDecision K}
    (rows : list (Row K)) (label : string) :
  (∀ r, r ∈ rows → row_Entity_type r ≠ Scalar (Str label)) →
  filter_Entity_type label (Frame rows) = Ok (Frame [])
  ∧ filter_cell label (Frame rows) = Ok (Frame []).
Proof.
  intros Hnone.
  assert (filter (has_category label) rows = []) as Hempty.
  { apply filter_none, Forall_forall. intros r Hr. by apply Hnone. }
  by rewrite filter_cell_Frame, filter_Entity_type_Frame, Hempty.
Qed.

Lemma unknown_category_filter_is_empty_witness :
  filter_Entity_type "LAW" (Frame Sample.exploded) = Ok (Frame [])
  ∧ filter_cell "LAW" (Frame Sample.exploded) = Ok (Frame []).
Proof.
  apply (unknown_category_filter_is_empty Sample.exploded "LAW").
  intros r Hr. unfold Sample.exploded in Hr.
  repeat (apply elem_of_cons in Hr as [->|Hr]; [discriminate|]).
  by apply elem_of_nil in Hr.
Defined.

(** C8. The explode cell leaves an already flat table unchanged, both when
    it is run on the table as it is and when every row is first turned into
    a record with one-element sequences; and every table the explode cell
    returns is flat, so running the cell a second time changes nothing. *)
Theorem explode_idempotent {K : Type} `{EqDecision K}
    (keys : string) (rows : list (Row K)) :
  Forall flat rows →
  explode_cell keys (Frame rows) = Ok (Frame rows)
  ∧ explode_cell keys (Frame (one_element_record <$> rows)) = Ok (Frame rows)
  ∧ (∀ (df : DataFrame K) (out : list (Row K)),
       explode_cell keys df = Ok (Frame out) →
       explode_cell keys (Frame out) = Ok (Frame out)).
Proof.
  intros Hflat. split; [|split].
  - rewrite explode_cell_balanced.
    + by rewrite flat_explode_rows.
    + eapply Forall_impl; [exact Hflat|]. apply flat_balanced.
  - rewrite explode_cell_balanced.
    + by rewrite one_element_explode_rows.
    + apply Forall_fmap. eapply Forall_impl; [exact Hflat|].
      apply one_element_balanced.
  - intros df out Hout. apply explode_cell_flat in Hout.
    rewrite explode_cell_balanced.
    + by rewrite flat_explode_rows.
    + eapply Forall_impl; [exact Hout|]. apply flat_balanced.
Qed.

Lemma explode_idempotent_witness :
  explode_cell "File_name" (Frame Sample.exploded) = Ok (Frame Sample.exploded)
  ∧ explode_cell "File_name" (Frame (one_element_record <$> Sample.exploded))
    = Ok (Frame Sample.exploded)
  ∧ (∀ (df : DataFrame string) (out : list (Row string)),
       explode_cell "File_name" df = Ok (Frame out) →
       explode_cell "File_name" (Frame out) = Ok (Frame out)).
Proof.
  apply (explode_idempotent "File_name" Sample.exploded).
  repeat constructor; by eexists.
Defined.

(** C9. The single-document cell, started in any store, ends with
    [entities] holding one reference per tagged span, not one per document.
    The references point to pairwise distinct dictionary objects with the
    same content: each one refers to the two shared lists, which by the end
    of the loop hold the labels and the texts of all spans.  Printing
    [entities] therefore shows the pair of complete lists once per span. *)
Theorem single_document_cell (doc : Doc) (h0 : gmap nat SingleDocCell.object) :
  ∃ entities h dicts entity_type entity_identified,
    SingleDocCell.cell doc h0 = Ok (entities, h)
    ∧ h !! entities = Some (SingleDocCell.PyList (SingleDocCell.VRef <$> dicts))
    ∧ length dicts = length (ents doc)
    ∧ NoDup dicts
    ∧ Forall (λ d, h !! d = Some (SingleDocCell.PyDict
                 [("Entity_type", SingleDocCell.VRef entity_type);
                  ("Entity_identified", SingleDocCell.VRef entity_identified)]))
             dicts
    ∧ h !! entity_type
      = Some (SingleDocCell.PyList (SingleDocCell.VStr <$> map label_ (ents doc)))
    ∧ h !! entity_identified
      = Some (SingleDocCell.PyList (SingleDocCell.VStr <$> map text (ents doc)))
    ∧ SingleDocCell.print_entities h entities
      = Some (replicate (length (ents doc))
                (map label_ (ents doc), map text (ents doc))).
Proof.
  pose proof (cell_prologue h0) as Hst0. simpl in Hst0.
  destruct (for_each_loop_body (ents doc) _ _ _ _ _ _ _ Hst0)
    as (h & dicts & Hloop & Hlen & Hst).
  simpl in Hst.
  eexists _, h, dicts, _, _. split.
  - unfold SingleDocCell.cell.
    do 3 (erewrite stmt_bind_Ok by reflexivity).
    erewrite stmt_bind_Ok by exact Hloop. reflexivity.
  - pose proof (print_loop_state _ _ _ _ _ _ _ Hst) as Hprint.
    destruct Hst as [_ Ht Hi He Hd Hnd]. rewrite Hlen in Hprint.
    by repeat split.
Qed.

(** C10.  In the [enumerate] form of the loop the [i]-th dictionary gets
    [Doc_index] [i], so the keys already ascend and sorting the frame by
    ['Doc_index'] returns it as it is: the sort cell, run on a non-empty
    collection, yields the frame of the accumulated dictionaries in
    accumulation order.  Since the indexes are pairwise distinct, this is
    so for every sorting algorithm: the only ascending arrangement of the
    dictionaries is the accumulation order. *)
Theorem Doc_index_sort_is_identity (processed_doc : list Doc) :
  key <$> EnumerateLoop.all_entities processed_doc = seq 0 (length processed_doc)
  ∧ sort_by (≤) key (EnumerateLoop.all_entities processed_doc)
    = EnumerateLoop.all_entities processed_doc
  ∧ (processed_doc ≠ [] →
       EnumerateNotebook.sort_cell (EnumerateLoop.all_entities processed_doc)
       = Ok (pd_DataFrame (EnumerateLoop.all_entities processed_doc)))
  ∧ (∀ arranged, arranged ≡ₚ EnumerateLoop.all_entities processed_doc →
       Sorted (≤) (key <$> arranged) →
       arranged = EnumerateLoop.all_entities processed_doc).
Proof.
  pose proof (all_entities_keys processed_doc) as Hkeys.
  assert (Sorted (≤) (key <$> EnumerateLoop.all_entities processed_doc)) as Hsorted.
  { rewrite Hkeys. apply Sorted_seq. }
  split; [done|]. split; [by apply sort_by_sorted|]. split.
  - intros Hne. unfold EnumerateNotebook.sort_cell.
    destruct (EnumerateLoop.all_entities processed_doc) as [|d recs] eqn:Hrecs.
    { apply (f_equal length) in Hrecs. rewrite all_entities_length in Hrecs.
      by destruct processed_doc. }
    unfold pd_DataFrame, sort_values.
    rewrite (sort_by_fmap (≤) key row_key record_row) by done.
    by rewrite sort_by_sorted.
  - intros arranged Hperm Harr. symmetry.
    apply (sorted_permutation_unique (≤) key); [|done..].
    rewrite Hkeys. apply NoDup_seq.
Qed.

Lemma Doc_index_sort_is_identity_witness :
  EnumerateNotebook.sort_cell
    (EnumerateLoop.all_entities [ {| ents := Sample.tagged |}; {| ents := [] |} ])
  = Ok (pd_DataFrame
          (EnumerateLoop.all_entities [ {| ents := Sample.tagged |}; {| ents := [] |} ])).
Proof.
  destruct (Doc_index_sort_is_identity [ {| ents := Sample.tagged |}; {| ents := [] |} ])
    as (_ & _ & Hcell & _).
  apply Hcell. discriminate.
Defined.

(** * Further properties of the notebook *)

(** ** The file loop: failures and the order of the listing *)

Section FileLoop_more.
Variable nlp : string → Doc.
Variable open_read : string → result string.

Lemma record_of_built a d :
  built_from nlp open_read a d → d = record_of nlp open_read a.
Proof. intros (txt & Ha & ->). unfold record_of. by rewrite Ha. Qed.

Lemma built_records articles recs :
  Forall2 (built_from nlp open_read) articles recs →
  recs = record_of nlp open_read <$> articles.
Proof.
  induction 1 as [|a d articles recs Hd _ IH]; csimpl; [done|].
  by rewrite <- IH, <- (record_of_built a d Hd).
Qed.

Lemma not_readable_raises a :
  ¬ readable open_read a → ∃ e, open_read a = Raise e.
Proof.
  intros Hno. destruct (open_read a) as [txt|e] eqn:Ha; [|by exists e].
  destruct Hno. by exists txt.
Qed.



End FileLoop_more.

(** X1. The table does not depend on the order in which the files are
    listed: for readable files with pairwise distinct names, running the
    accumulation, sort and explode cells on any rearrangement of the list
    gives the same result. *)
Theorem table_independent_of_listing_order
    (nlp : string → Doc) (open_read : string → result string)
    (articles listing : list string) :
  NoDup articles → Forall (readable open_read) articles → listing ≡ₚ articles →
  FileNotebook.df_NER nlp open_read listing
  = FileNotebook.df_NER nlp open_read articles.
Proof.
  intros Hnd Hread Hperm.
  assert (Forall (readable open_read) listing) as Hread' by (by rewrite Hperm).
  destruct (all_entities_built nlp open_read articles Hread) as (recs & Hrun & Hbuilt).
  destruct (all_entities_built nlp open_read listing Hread') as (recs' & Hrun' & Hbuilt').
  pose proof (built_keys _ _ _ _ Hbuilt) as Hkeys.
  pose proof (built_parallel _ _ _ _ Hbuilt) as Hpar.
  pose proof (built_parallel _ _ _ _ Hbuilt') as Hpar'.
  apply built_records in Hbuilt, Hbuilt'.
  assert (recs' ≡ₚ recs) as Hrecs by (by rewrite Hbuilt, Hbuilt', Hperm).
  unfold FileNotebook.df_NER. rewrite Hrun, Hrun', !result_bind_Ok.
  destruct recs as [|d recs].
  { apply Permutation_nil_r in Hrecs. by rewrite Hrecs. }
  assert (recs' ≠ []) as Hne'.
  { intros ->. by apply Permutation_nil_cons in Hrecs. }
  unfold FileNotebook.table, FileNotebook.sort_cell.
  rewrite !(sorted_then_exploded String.le) by done.
  do 2 f_equal. f_equal.
  apply (sort_by_unique String.le key).
  - by rewrite Hkeys.
  - by rewrite sort_by_Permutation.
  - apply sort_by_Sorted. apply _.
Qed.

Lemma table_independent_of_listing_order_witness :
  FileNotebook.df_NER Sample.nlp Sample.open_read ["files/10.txt"; "doc2"; "files/2.txt"]
  = FileNotebook.df_NER Sample.nlp Sample.open_read ["files/2.txt"; "files/10.txt"; "doc2"].
Proof.
  apply table_independent_of_listing_order.
  - apply (bool_decide_unpack _). vm_compute. exact I.
  - repeat constructor; eexists; reflexivity.
  - symmetry. apply (Permutation_cons_append ["files/10.txt"; "doc2"] "files/2.txt").
Defined.


(** ** The [enumerate] form: which rows belong to which document *)

Lemma enumerate_from_lookup {A} (xs : list A) start i :
  EnumerateLoop.enumerate_from start xs !! i = (λ x, (start + i, x)) <$> xs !! i.
Proof.
  revert start i. induction xs as [|x xs IH]; intros start [|i]; csimpl; try done.
  - by rewrite Nat.add_0_r.
  - rewrite IH. by replace (S start + i) with (start + S i) by lia.
Qed.

Lemma all_entities_lookup (docs : list Doc) i :
  EnumerateLoop.all_entities docs !! i
  = (λ doc, EntDict i (map label_ (ents doc)) (map text (ents doc))) <$> docs !! i.
Proof.
  unfold EnumerateLoop.all_entities, EnumerateLoop.enumerate.
  rewrite fold_loop_body. simpl.
  rewrite list_lookup_fmap, enumerate_from_lookup.
  by destruct (docs !! i).
Qed.

Lemma zip_with_projections {A B C D} (g : B → C → D) (f1 : A → B) (f2 : A → C)
    (l : list A) :
  zip_with g (map f1 l) (map f2 l) = (λ x, g (f1 x) (f2 x)) <$> l.
Proof. induction l as [|x l IH]; csimpl; [done|]. by rewrite IH. Qed.

Lemma document_rows_spans {K} (k : K) (spans : list Span) :
  document_rows (EntDict k (map label_ spans) (map text spans)) = span_rows k spans.
Proof.
  destruct spans as [|e spans]; [done|].
  unfold document_rows, span_rows, entity_rows.
  cbn [Entity_type Entity_identified key].
  by rewrite (zip_with_projections
                (λ t i, MkRow k (Scalar (Str t)) (Scalar (Str i))) label_ text).
Qed.

Lemma span_rows_nonempty {K} (k : K) (spans : list Span) : span_rows k spans ≠ [].
Proof. by destruct spans. Qed.

(** The rows of the table under the index [i]. *)
Lemma enumerate_rows_of_key (docs : list Doc) i :
  rows_of_key i (EnumerateLoop.all_entities docs ≫= document_rows)
  = match docs !! i with
    | Some doc => span_rows i (ents doc)
    | None => []
    end.
Proof.
  pose proof (all_entities_lookup docs i) as Hi.
  destruct (docs !! i) as [doc|] eqn:Hdoc; simpl in Hi.
  - rewrite <- document_rows_spans.
    apply (rows_of_key_document (EnumerateLoop.all_entities docs)
             (EntDict i (map label_ (ents doc)) (map text (ents doc)))).
    + rewrite all_entities_keys. apply NoDup_seq.
    + by eapply list_elem_of_lookup_2.
  - apply rows_of_key_other. rewrite all_entities_keys, elem_of_seq.
    apply lookup_ge_None in Hdoc. lia.
Qed.

Lemma all_entities_row_count (docs : list Doc) :
  sum_list_with (λ d, 1 `max` length (Entity_type d)) (EnumerateLoop.all_entities docs)
  = sum_list_with (λ doc, 1 `max` length (ents doc)) docs.
Proof.
  pose proof (all_entities_projections docs) as Hproj.
  induction Hproj as [|doc d docs recs [Ht _] _ IH]; csimpl; [done|].
  by rewrite IH, Ht, length_map.
Qed.

Lemma sum_at_least_length {A} (f : A → nat) (l : list A) :
  length l ≤ sum_list_with (λ x, 1 `max` f x) l.
Proof. induction l as [|x l IH]; csimpl; lia. Qed.

(** X3. In the [enumerate] form the table cells raise [KeyError] exactly
    when there is no document; with at least one document they return a
    table with one row per entity and one placeholder row per document
    without entities, hence at least one row per document, and the keys
    that occur in the table are exactly the positions [0 .. n-1]. *)
Theorem enumerate_table_or_KeyError (docs : list Doc) :
  (EnumerateNotebook.df_NER docs = Raise (KeyError "Doc_index") ↔ docs = [])
  ∧ (docs ≠ [] →
       ∃ rows, EnumerateNotebook.df_NER docs = Ok (Frame rows)
         ∧ length rows = sum_list_with (λ doc, 1 `max` length (ents doc)) docs
         ∧ length docs ≤ length rows
         ∧ ∀ k, k ∈ row_key <$> rows ↔ k < length docs).
Proof.
  assert (docs ≠ [] →
       ∃ rows, EnumerateNotebook.df_NER docs = Ok (Frame rows)
         ∧ length rows = sum_list_with (λ doc, 1 `max` length (ents doc)) docs
         ∧ length docs ≤ length rows
         ∧ ∀ k, k ∈ row_key <$> rows ↔ k < length docs) as Hrows.
  { intros Hne. exists (EnumerateLoop.all_entities docs ≫= document_rows).
    split; [by apply enumerate_table_order|].
    assert (length (EnumerateLoop.all_entities docs ≫= document_rows)
            = sum_list_with (λ doc, 1 `max` length (ents doc)) docs) as Hlen.
    { rewrite table_length by apply all_entities_parallel.
      apply all_entities_row_count. }
    split; [done|]. split; [rewrite Hlen; apply sum_at_least_length|].
    intros k. split.
    - intros (r & -> & Hr)%list_elem_of_fmap.
      apply list_elem_of_bind in Hr as (d & Hr & Hd).
      pose proof (document_rows_key d) as Hkey.
      rewrite Forall_forall in Hkey. rewrite (Hkey _ Hr).
      assert (key d ∈ key <$> EnumerateLoop.all_entities docs) as Hin
        by (by apply list_elem_of_fmap_2).
      rewrite all_entities_keys, elem_of_seq in Hin. lia.
    - intros Hk. apply lookup_lt_is_Some_2 in Hk as [doc Hdoc].
      pose proof (enumerate_rows_of_key docs k) as Hrows. rewrite Hdoc in Hrows.
      destruct (span_rows k (ents doc)) as [|r rest] eqn:Hspan.
      { by apply span_rows_nonempty in Hspan. }
      assert (r ∈ rows_of_key k (EnumerateLoop.all_entities docs ≫= document_rows))
        as Hr by (rewrite Hrows; left).
      apply list_elem_of_filter in Hr as [<- Hr]. by apply list_elem_of_fmap_2. }
  split; [|done]. split.
  - intros Hraise. destruct docs as [|doc docs]; [done|].
    destruct Hrows as (rows & Hok & _); [done|]. congruence.
  - by intros ->.
Qed.

Lemma enumerate_table_or_KeyError_witness :
  ∃ rows,
    EnumerateNotebook.df_NER [ {| ents := Sample.tagged |}; {| ents := [] |} ]
    = Ok (Frame rows)
    ∧ length rows = 4.
Proof.
  destruct (enumerate_table_or_KeyError [ {| ents := Sample.tagged |}; {| ents := [] |} ])
    as [_ Hrows].
  destruct Hrows as (rows & Hok & Hlen & _); [discriminate|].
  exists rows. split; [exact Hok|exact Hlen].
Defined.

(** X4. The [Doc_index] of a row leads back to the article it came from:
    in the table built from the scraped articles, the rows under index [i]
    are the entities the tagger emits for the cleaned text of the [i]-th
    article, in emission order (one placeholder row if there are none), and
    an index past the last article has no rows. *)
Theorem Doc_index_traces_back (get_text : string → string) (nlp : string → Doc)
    (scraped : list string) :
  scraped ≠ [] →
  ∃ rows,
    Notebook.df_NER_of_scraped get_text nlp scraped = Ok (Frame rows)
    ∧ ∀ i, rows_of_key i rows
           = match scraped !! i with
             | Some html => span_rows i (ents (nlp (get_text html)))
             | None => []
             end.
Proof.
  intros Hne. unfold Notebook.df_NER_of_scraped, Notebook.processed_doc,
    Notebook.cleaned_text.
  eexists. split.
  - apply enumerate_table_order. by destruct scraped.
  - intros i. rewrite enumerate_rows_of_key, !list_lookup_fmap.
    by destruct (scraped !! i).
Qed.

Lemma Doc_index_traces_back_witness :
  ∃ rows,
    Notebook.df_NER_of_scraped (λ html, html) Sample.nlp
      ["Apple hired Jane in Paris."; "<p></p>"] = Ok (Frame rows)
    ∧ rows_of_key 1 rows = [nan_row 1]
    ∧ rows_of_key 2 rows = [].
Proof.
  destruct (Doc_index_traces_back (λ html, html) Sample.nlp
              ["Apple hired Jane in Paris."; "<p></p>"]) as (rows & Hok & Hrows);
    [discriminate|].
  exists rows. split; [exact Hok|]. split; [exact (Hrows 1)|exact (Hrows 2)].
Defined.

(** ** Scraping, and the whole notebook *)

Section Series_apply_facts.
Context {A B : Type} (func : A → result B).



End Series_apply_facts.



(** X6. The cell that picks a document for display fails exactly when
    [row_index] is out of bounds, that is below [-n] or at least [n] for
    [n] articles (so always when there is no article).  A position [i] in
    bounds selects the processed [i]-th article, the one whose entities are
    the rows under [Doc_index] [i]; a negative position counts from the
    end. *)
Theorem selected_doc_bounds (get_text : string → string) (nlp : string → Doc)
    (scraped : list string) (row_index : Z) :
  (Notebook.selected_doc get_text nlp scraped row_index = None
   ↔ (row_index < - Z.of_nat (length scraped) ∨ Z.of_nat (length scraped) ≤ row_index)%Z)
  ∧ (∀ i html, scraped !! i = Some html →
       Notebook.selected_doc get_text nlp scraped (Z.of_nat i)
       = Some (nlp (get_text html))
       ∧ Notebook.selected_doc get_text nlp scraped
           (Z.of_nat i - Z.of_nat (length scraped))
         = Some (nlp (get_text html))).
Proof.
  unfold Notebook.selected_doc, Notebook.processed_doc, Notebook.cleaned_text, iloc.
  rewrite !length_map. split.
  - case_decide as Hout; [done|]. split; [|done]. intros Hnone.
    case_decide; apply lookup_ge_None in Hnone; rewrite !length_map in Hnone; lia.
  - intros i html Hi. pose proof (lookup_lt_Some _ _ _ Hi) as Hlt. split.
    + rewrite decide_False by lia. rewrite decide_False by lia.
      rewrite Nat2Z.id, !list_lookup_fmap, Hi. done.
    + rewrite decide_False by lia. rewrite decide_True by lia.
      replace (Z.to_nat (Z.of_nat i - Z.of_nat (length scraped)
                         + Z.of_nat (length scraped))) with i by lia.
      by rewrite !list_lookup_fmap, Hi.
Qed.

Lemma selected_doc_bounds_witness :
  Notebook.selected_doc (λ html, html) Sample.nlp
    ["<p></p>"; "Apple hired Jane in Paris."] (-1)
  = Some {| ents := Sample.tagged |}.
Proof.
  destruct (selected_doc_bounds (λ html, html) Sample.nlp
              ["<p></p>"; "Apple hired Jane in Paris."] 0) as [_ Hsel].
  exact (proj2 (Hsel 1 "Apple hired Jane in Paris." eq_refl)).
Defined.

(** ** Printing loops and category filters *)

Lemma print_loop_filter (label : string) (spans : list Span) (stdout : list string) :
  fold_left (λ stdout named_entity,
               if String.eqb (label_ named_entity) label
               then stdout ++ [text named_entity]
               else stdout) spans stdout
  = stdout ++ (text <$> filter (λ e, label_ e = label) spans).
Proof.
  revert stdout. induction spans as [|e spans IH]; intros stdout; simpl.
  - by rewrite app_nil_r.
  - rewrite IH, filter_cons. destruct (String.eqb_spec (label_ e) label) as [Heq|Hne].
    + rewrite decide_True by done. csimpl. by rewrite <- app_assoc.
    + by rewrite decide_False.
Qed.

Lemma print_labelled_filter (label : string) (doc : Doc) :
  print_labelled label doc = text <$> filter (λ e, label_ e = label) (ents doc).
Proof. unfold print_labelled. by rewrite print_loop_filter. Qed.

Section filter_rows.
Context {K : Type} `{EqDecision K}.

Lemma filter_swap {A} (P Q : A → Prop) `{!∀ x, Decision (P x), !∀ x, Decision (Q x)}
    (l : list A) :
  filter P (filter Q l) = filter Q (filter P l).
Proof.
  induction l as [|x l IH]; [done|].
  rewrite !filter_cons.
  destruct (decide (P x)), (decide (Q x));
    rewrite ?filter_cons_True, ?filter_cons_False by done; by rewrite IH.
Qed.

Lemma filter_entity_rows (k : K) (label : string) (spans : list Span) :
  filter (has_category label)
    ((λ e, MkRow k (Scalar (Str (label_ e))) (Scalar (Str (text e)))) <$> spans)
  = labelled_rows k label spans.
Proof.
  unfold labelled_rows. induction spans as [|e spans IH]; csimpl; [done|].
  rewrite !filter_cons, IH. unfold has_category at 1. simpl.
  destruct (decide (label_ e = label)) as [Heq|Hne].
  - rewrite decide_True by (by rewrite Heq). csimpl. by rewrite Heq.
  - rewrite decide_False; [done|]. intros [=]. done.
Qed.

(** The rows of one document that a category filter keeps. *)
Lemma filter_span_rows (k : K) (label : string) (spans : list Span) :
  filter (has_category label) (span_rows k spans) = labelled_rows k label spans.
Proof.
  destruct spans as [|e spans]; [done|]. apply filter_entity_rows.
Qed.

Lemma rows_of_key_filter (k : K) (label : string) (rows : list (Row K)) :
  rows_of_key k (filter (has_category label) rows)
  = filter (has_category label) (rows_of_key k rows).
Proof. unfold rows_of_key. apply filter_swap. Qed.

Lemma filter_has_category_twice (l1 l2 : string) (rows : list (Row K)) :
  filter (has_category l2) (filter (has_category l1) rows)
  = if decide (l1 = l2) then filter (has_category l1) rows else [].
Proof.
  case_decide as Heq.
  - subst. induction rows as [|r rows IH]; [done|].
    rewrite filter_cons. case_decide; [|done].
    by rewrite filter_cons_True, IH.
  - apply filter_none, Forall_forall. intros r [Hr _]%list_elem_of_filter Hr'.
    unfold has_category in *. congruence.
Qed.
End filter_rows.

(** X7. The category filter of the table agrees with the per-label
    printing loop: in the table built from the scraped articles, the rows
    that the filter for a label keeps under [Doc_index] [i] carry, in the
    same order, exactly the texts that the loop
    [if named_entity.label_ == label: print(named_entity)] prints for the
    [i]-th article. *)
Theorem filter_agrees_with_print_loop
    (get_text : string → string) (nlp : string → Doc)
    (scraped : list string) (label : string) :
  scraped ≠ [] →
  ∃ rows selected,
    Notebook.df_NER_of_scraped get_text nlp scraped = Ok (Frame rows)
    ∧ filter_Entity_type label (Frame rows) = Ok (Frame selected)
    ∧ ∀ i html, scraped !! i = Some html →
        rows_of_key i selected
        = (λ printed, MkRow i (Scalar (Str label)) (Scalar (Str printed)))
            <$> print_labelled label (nlp (get_text html)).
Proof.
  intros Hne.
  exists (EnumerateLoop.all_entities (nlp <$> (get_text <$> scraped)) ≫= document_rows).
  eexists. split; [|split].
  - unfold Notebook.df_NER_of_scraped, Notebook.processed_doc, Notebook.cleaned_text.
    apply enumerate_table_order. by destruct scraped.
  - apply filter_Entity_type_Frame.
  - intros i html Hi.
    rewrite rows_of_key_filter, enumerate_rows_of_key, !list_lookup_fmap, Hi.
    csimpl. rewrite filter_span_rows, print_labelled_filter.
    unfold labelled_rows. by rewrite <- list_fmap_compose.
Qed.

Lemma filter_agrees_with_print_loop_witness :
  ∃ rows selected,
    Notebook.df_NER_of_scraped (λ html, html) Sample.nlp
      ["<p></p>"; "Apple hired Jane in Paris."] = Ok (Frame rows)
    ∧ filter_Entity_type "GPE" (Frame rows) = Ok (Frame selected)
    ∧ rows_of_key 1 selected = [MkRow 1 (Scalar (Str "GPE")) (Scalar (Str "Paris"))].
Proof.
  destruct (filter_agrees_with_print_loop (λ html, html) Sample.nlp
              ["<p></p>"; "Apple hired Jane in Paris."] "GPE")
    as (rows & selected & Hok & Hsel & Hrows); [discriminate|].
  exists rows, selected. split; [exact Hok|]. split; [exact Hsel|].
  exact (Hrows 1 "Apple hired Jane in Paris." eq_refl).
Defined.

(** X8. In the file form, a file is found under its name both in the table
    and in every filtered view: the table holds the file's entities in
    emission order, and the filter for a label keeps of them exactly the
    entities with that label.  A file without entities keeps its
    placeholder row in the table but appears in no filtered view. *)
Theorem file_rows_in_table_and_filter
    (nlp : string → Doc) (open_read : string → result string)
    (articles : list string) (a txt label : string) :
  NoDup articles → Forall (readable open_read) articles →
  a ∈ articles → open_read a = Ok txt →
  ∃ rows selected,
    FileNotebook.df_NER nlp open_read articles = Ok (Frame rows)
    ∧ filter_Entity_type label (Frame rows) = Ok (Frame selected)
    ∧ rows_of_key a rows = span_rows a (ents (nlp txt))
    ∧ rows_of_key a selected = labelled_rows a label (ents (nlp txt))
    ∧ (ents (nlp txt) = [] →
         rows_of_key a rows = [nan_row a] ∧ rows_of_key a selected = []).
Proof.
  intros Hnd Hread Ha Hopen.
  destruct (file_table_rows nlp open_read articles a
              (EntDict a (map label_ (ents (nlp txt))) (map text (ents (nlp txt))))
              Hnd Hread Ha) as (rows & Hok & Hrows).
  { by exists txt. }
  rewrite document_rows_spans in Hrows.
  exists rows, (filter (has_category label) rows).
  split; [done|]. split; [apply filter_Entity_type_Frame|]. split; [done|].
  assert (rows_of_key a (filter (has_category label) rows)
          = labelled_rows a label (ents (nlp txt))) as Hsel.
  { by rewrite rows_of_key_filter, Hrows, filter_span_rows. }
  split; [done|]. intros Hnone. rewrite Hsel, Hrows, Hnone. done.
Qed.

Lemma file_rows_in_table_and_filter_witness :
  ∃ rows selected,
    FileNotebook.df_NER Sample.nlp Sample.open_read ["doc1"; "doc2"] = Ok (Frame rows)
    ∧ filter_Entity_type "ORG" (Frame rows) = Ok (Frame selected)
    ∧ rows_of_key "doc2" rows = [nan_row "doc2"]
    ∧ rows_of_key "doc2" selected = [].
Proof.
  destruct (file_rows_in_table_and_filter Sample.nlp Sample.open_read
              ["doc1"; "doc2"] "doc2" "" "ORG")
    as (rows & selected & Hok & Hsel & _ & _ & Hnone).
  - apply (bool_decide_unpack _). vm_compute. exact I.
  - repeat constructor; eexists; reflexivity.
  - apply elem_of_cons. right. apply elem_of_cons. by left.
  - reflexivity.
  - exists rows, selected. split; [exact Hok|]. split; [exact Hsel|].
    exact (Hnone eq_refl).
Defined.

(** X9. Category filters compose as intersections: filtering the result of
    a filter by the same label changes nothing, filtering it by a different
    label leaves no row, and the views of two different labels never share
    a row, so together they are no longer than the table. *)
Theorem category_filters_compose {K : Type} `{EqDecision K}
    (rows : list (Row K)) (l1 l2 : string) :
  (filter_Entity_type l1 (Frame rows) ≫= filter_Entity_type l2)
  = Ok (Frame (if decide (l1 = l2) then filter (has_category l1) rows else []))
  ∧ (l1 ≠ l2 →
       (∀ r, r ∈ filter (has_category l1) rows → r ∉ filter (has_category l2) rows)
       ∧ length (filter (has_category l1) rows) + length (filter (has_category l2) rows)
         ≤ length rows).
Proof.
  split.
  - rewrite filter_Entity_type_Frame, result_bind_Ok, filter_Entity_type_Frame.
    by rewrite filter_has_category_twice.
  - intros Hne. split.
    + intros r [Hr _]%list_elem_of_filter [Hr' _]%list_elem_of_filter.
      unfold has_category in *. congruence.
    + induction rows as [|r rows IH]; [done|].
      rewrite !filter_cons. simpl.
      destruct (decide (has_category l1 r)) as [H1|H1],
               (decide (has_category l2 r)) as [H2|H2]; simpl; try lia.
      unfold has_category in *. congruence.
Qed.

Lemma category_filters_compose_witness :
  (filter_Entity_type "GPE" (Frame Sample.exploded) ≫= filter_Entity_type "ORG")
  = Ok (Frame [])
  ∧ length (filter (has_category "GPE") Sample.exploded)
    + length (filter (has_category "ORG") Sample.exploded) ≤ length Sample.exploded.
Proof.
  destruct (category_filters_compose Sample.exploded "GPE" "ORG") as [Hcomp Hdisj].
  split; [exact Hcomp|]. apply Hdisj. discriminate.
Defined.

(** X10. A filter cell shows the first fifteen matching rows and no more:
    what it returns is a prefix of the full selection, its length is the
    smaller of 15 and the number of matching rows, and it is the full
    selection exactly when at most fifteen rows match. *)
Theorem filter_cell_cap {K : Type} `{EqDecision K}
    (rows : list (Row K)) (label : string) :
  ∃ shown,
    filter_cell label (Frame rows) = Ok (Frame shown)
    ∧ shown `prefix_of` filter (has_category label) rows
    ∧ length shown = 15 `min` length (filter (has_category label) rows)
    ∧ (shown = filter (has_category label) rows
       ↔ length (filter (has_category label) rows) ≤ 15).
Proof.
  exists (take 15 (filter (has_category label) rows)).
  split; [apply filter_cell_Frame|]. split; [apply prefix_take|].
  split; [apply length_take|]. split.
  - intros Heq. apply (f_equal length) in Heq. rewrite length_take in Heq. lia.
  - apply take_ge.
Qed.

(** ** What the explode cell keeps *)

Section explode_more.
Context {K : Type} `{EqDecision K}.

Lemma explode_value_nonempty (c : cell) : 0 < length (explode_value c).
Proof. destruct c as [[|v items]|v]; simpl; lia. Qed.

Lemma explode_row_length (r : Row K) :
  balanced r → 0 < length (explode_row r).
Proof.
  unfold balanced, explode_row. intros Hb.
  rewrite length_zip_with, <- Hb.
  pose proof (explode_value_nonempty (row_Entity_type r)). lia.
Qed.

Lemma explode_row_elem (r r' : Row K) :
  r' ∈ explode_row r →
  ∃ t i, r' = MkRow (row_key r) (Scalar t) (Scalar i)
         ∧ t ∈ explode_value (row_Entity_type r)
         ∧ i ∈ explode_value (row_Entity_identified r).
Proof.
  unfold explode_row. intros (t & i & -> & Ht & Hi)%elem_of_zip_with. eauto.
Qed.
End explode_more.

(** X11. Run on a frame whose rows explode evenly, the explode cell loses
    and invents no document: every key of the frame is a key of the result
    and the other way round, the result has at least as many rows as the
    frame, all its cells are scalars, and every row of the result takes its
    key and its two values from one row of the frame. *)
Theorem explode_keeps_documents {K : Type} `{EqDecision K}
    (keys : string) (rows : list (Row K)) :
  Forall balanced rows →
  ∃ out,
    explode_cell keys (Frame rows) = Ok (Frame out)
    ∧ Forall flat out
    ∧ length rows ≤ length out
    ∧ (∀ k, k ∈ row_key <$> out ↔ k ∈ row_key <$> rows)
    ∧ (∀ r', r' ∈ out →
         ∃ r t i, r ∈ rows
           ∧ r' = MkRow (row_key r) (Scalar t) (Scalar i)
           ∧ t ∈ explode_value (row_Entity_type r)
           ∧ i ∈ explode_value (row_Entity_identified r)).
Proof.
  intros Hb. exists (rows ≫= explode_row).
  pose proof (explode_cell_balanced keys rows Hb) as Hrun.
  split; [done|]. split; [by eapply explode_cell_flat|]. split.
  { clear Hrun. induction Hb as [|r rows Hr _ IH]; csimpl; [done|].
    rewrite length_app. pose proof (explode_row_length r Hr). lia. }
  split.
  - intros k. split.
    + intros (r' & -> & Hr')%list_elem_of_fmap.
      apply list_elem_of_bind in Hr' as (r & Hr' & Hr).
      apply explode_row_elem in Hr' as (t & i & -> & _). simpl.
      by apply list_elem_of_fmap_2.
    + intros (r & -> & Hr)%list_elem_of_fmap.
      rewrite Forall_forall in Hb.
      pose proof (explode_row_length r (Hb _ Hr)) as Hlen.
      destruct (explode_row r) as [|r' rest] eqn:Hrow; [simpl in Hlen; lia|].
      assert (r' ∈ explode_row r) as Hr' by (rewrite Hrow; left).
      pose proof Hr' as (t & i & -> & _)%explode_row_elem.
      apply (list_elem_of_fmap_2 row_key _ (MkRow (row_key r) (Scalar t) (Scalar i))).
      apply list_elem_of_bind. eauto.
  - intros r' (r & Hr' & Hr)%list_elem_of_bind.
    apply explode_row_elem in Hr' as (t & i & -> & Ht & Hi). eauto 10.
Qed.

Lemma explode_keeps_documents_witness :
  ∃ out,
    explode_cell "File_name" (Frame (record_row <$> Sample.records)) = Ok (Frame out)
    ∧ length (record_row <$> Sample.records) ≤ length out
    ∧ (∀ k, k ∈ row_key <$> out ↔ k ∈ row_key <$> (record_row <$> Sample.records)).
Proof.
  destruct (explode_keeps_documents "File_name" (record_row <$> Sample.records))
    as (out & Hok & _ & Hlen & Hkeys & _).
  - repeat constructor.
  - exists out. split; [exact Hok|]. split; [exact Hlen|exact Hkeys].
Defined.

(** ** The two forms of the accumulation loop *)

(** X12. The two forms of the accumulation loop build the same sequences:
    when the files hold the texts that the notebook processes, the
    dictionaries of the file loop and those of the [enumerate] loop agree
    position by position in [Entity_type] and [Entity_identified]; they
    differ only in the key, the file name in one and the position in the
    other. *)
Theorem accumulation_forms_agree
    (nlp : string → Doc) (open_read : string → result string)
    (articles texts : list string) :
  Forall2 (λ a txt, open_read a = Ok txt) articles texts →
  ∃ recs,
    FileLoop.all_entities nlp open_read articles = Ok recs
    ∧ (λ d, (Entity_type d, Entity_identified d)) <$> recs
      = (λ d, (Entity_type d, Entity_identified d))
          <$> EnumerateLoop.all_entities (nlp <$> texts)
    ∧ key <$> recs = articles
    ∧ key <$> EnumerateLoop.all_entities (nlp <$> texts) = seq 0 (length articles).
Proof.
  intros Hfiles.
  assert (Forall (readable open_read) articles) as Hread.
  { clear -Hfiles. induction Hfiles as [|a txt articles texts Ha _ IH];
      constructor; [by exists txt|done]. }
  destruct (all_entities_built nlp open_read articles Hread) as (recs & Hrun & Hbuilt).
  exists recs. split; [done|].
  split; [|split; [by eapply built_keys|]].
  - pose proof (all_entities_projections (nlp <$> texts)) as Hproj.
    revert Hproj. generalize (EnumerateLoop.all_entities (nlp <$> texts)) as recs'.
    clear Hrun Hread. revert recs Hbuilt.
    induction Hfiles as [|a txt articles texts Ha _ IH];
      intros recs Hbuilt recs' Hproj.
    + inv Hbuilt. by inv Hproj.
    + inv Hbuilt. csimpl in Hproj. inv Hproj. csimpl. f_equal; [|by apply IH].
      match goal with H : built_from _ _ _ _ |- _ => destruct H as (txt' & Ha' & ->) end.
      rewrite Ha in Ha'. injection Ha' as <-.
      match goal with H : _ ∧ _ |- _ => destruct H as [-> ->] end. done.
  - rewrite all_entities_keys, length_fmap.
    by rewrite (Forall2_length _ _ _ Hfiles).
Qed.

Lemma accumulation_forms_agree_witness :
  ∃ recs,
    FileLoop.all_entities Sample.nlp Sample.open_read ["doc1"; "doc2"] = Ok recs
    ∧ (λ d, (Entity_type d, Entity_identified d)) <$> recs
      = (λ d, (Entity_type d, Entity_identified d))
          <$> EnumerateLoop.all_entities
                (Sample.nlp <$> ["Apple hired Jane in Paris."; ""])
    ∧ key <$> recs = ["doc1"; "doc2"]
    ∧ key <$> EnumerateLoop.all_entities
                (Sample.nlp <$> ["Apple hired Jane in Paris."; ""])
      = seq 0 (length ["doc1"; "doc2"]).
Proof.
  apply (accumulation_forms_agree Sample.nlp Sample.open_read ["doc1"; "doc2"]
           ["Apple hired Jane in Paris."; ""]).
  repeat constructor.
Defined.

(** ** Saving the articles to files *)





Section SaveFiles_facts.
Import SaveFiles.
Variable get_text : string → string.





End SaveFiles_facts.





(** X15. The table is sorted by file name as a string, which agrees with
    the numbering of the saved files only up to nine files: the saved
    paths, and with them any dictionaries keyed by them in saving order,
    are left in place by the sort exactly when there are at most nine of
    them.  From ten files on, ["files/10.txt"] comes before
    ["files/2.txt"]. *)
Theorem saved_paths_sorted_up_to_nine {A : Type} (by_key : A → string)
    (recs : list A) (n : nat) :
  by_key <$> recs = SaveFiles.saved_paths n →
  (Sorted String.le (SaveFiles.saved_paths n) ↔ n ≤ 9)
  ∧ (sort_by String.le by_key recs = recs ↔ n ≤ 9).
Proof.
  intros Hkeys.
  assert (Sorted String.le (SaveFiles.saved_paths n) ↔ n ≤ 9) as Hsorted.
  { split.
    - intros Hs. destruct (decide (n ≤ 9)) as [|Hbig]; [done|exfalso].
      apply (Sorted_StronglySorted String.le) in Hs.
      unfold SaveFiles.saved_paths in Hs.
      replace n with (2 + (n - 2)) in Hs by lia.
      rewrite seq_app, fmap_app in Hs.
      assert (String.le (SaveFiles.file_path 2) (SaveFiles.file_path 10)) as Hle.
      { eapply (StronglySorted_app_1_elem_of String.le); [exact Hs| |].
        - apply list_elem_of_fmap_2. apply elem_of_seq. lia.
        - apply list_elem_of_fmap_2. apply elem_of_seq. lia. }
      vm_compute in Hle. exact Hle.
    - intros Hn.
      do 10 (destruct n as [|n];
             [apply (bool_decide_unpack _); vm_compute; exact I|]).
      lia. }
  split; [done|]. rewrite <- Hsorted, <- Hkeys. split.
  - intros Heq. rewrite <- Heq. apply sort_by_Sorted. apply _.
  - apply sort_by_sorted.
Qed.

Lemma saved_paths_sorted_up_to_nine_witness :
  (Sorted String.le (SaveFiles.saved_paths 12) ↔ 12 ≤ 9)
  ∧ (sort_by String.le id (SaveFiles.saved_paths 12) = SaveFiles.saved_paths 12
     ↔ 12 ≤ 9).
Proof.
  apply (saved_paths_sorted_up_to_nine id (SaveFiles.saved_paths 12) 12).
  apply list_fmap_id.
Defined.

(** ** The single-document cell and the rest of the store *)

Section SingleDocCell_frame.
Import SingleDocCell.

Lemma loop_body_result h entities entity_type entity_identified types identified dicts e :
  loop_state h entities entity_type entity_identified types identified dicts →
  let h1 := <[entity_type := PyList ((VStr <$> types) ++ [VStr (label_ e)])]> h in
  let h2 := <[entity_identified := PyList ((VStr <$> identified) ++ [VStr (text e)])]> h1 in
  let d := fresh (dom h2) in
  let h3 := <[d := PyDict [("Entity_type", VRef entity_type);
                           ("Entity_identified", VRef entity_identified)]]> h2 in
  loop_body entities entity_type entity_identified e h
  = Ok ((), <[entities := PyList ((VRef <$> dicts) ++ [VRef d])]> h3).
Proof.
  intros [(Het & Hei & Hti) Ht Hi He Hd Hnd] h1 h2 d h3.
  unfold loop_body.
  erewrite stmt_bind_Ok by (by apply append_Ok).
  erewrite stmt_bind_Ok; [|apply append_Ok; by rewrite lookup_insert_ne].
  erewrite stmt_bind_Ok by reflexivity.
  fold h1 h2 d h3. apply append_Ok.
  assert (entities ≠ d) as Hed.
  { eapply lookup_fresh_ne. unfold h2, h1. by rewrite !lookup_insert_ne. }
  unfold h3, h2, h1. by rewrite !lookup_insert_ne.
Qed.

(** One turn of the loop adds one object and changes only the three
    lists. *)
Lemma loop_body_frame h h' entities entity_type entity_identified types identified dicts e :
  loop_state h entities entity_type entity_identified types identified dicts →
  loop_body entities entity_type entity_identified e h = Ok ((), h') →
  size h' = S (size h)
  ∧ ∀ l o, l ≠ entities → l ≠ entity_type → l ≠ entity_identified →
      h !! l = Some o → h' !! l = Some o.
Proof.
  intros Hst Hrun. pose proof Hst as [(Het & Hei & Hti) Ht Hi He Hd Hnd].
  rewrite (loop_body_result _ _ _ _ _ _ _ e Hst) in Hrun.
  injection Hrun as <-.
  set (h1 := <[entity_type := PyList ((VStr <$> types) ++ [VStr (label_ e)])]> h).
  set (h2 := <[entity_identified := PyList ((VStr <$> identified) ++ [VStr (text e)])]> h1).
  set (d := fresh (dom h2)).
  assert (h2 !! entities = Some (PyList (VRef <$> dicts))) as He2.
  { unfold h2, h1. by rewrite !lookup_insert_ne. }
  assert (entities ≠ d) as Hed by (by eapply lookup_fresh_ne).
  split.
  - rewrite map_size_insert_Some.
    2:{ exists (PyList (VRef <$> dicts)). by rewrite lookup_insert_ne. }
    rewrite map_size_insert_None by apply new_fresh.
    unfold h2, h1. rewrite !map_size_insert_Some; [done| |].
    + by exists (PyList (VStr <$> types)).
    + exists (PyList (VStr <$> identified)). by rewrite lookup_insert_ne.
  - intros l o Hle Hlt Hli Hl.
    assert (l ≠ d).
    { eapply lookup_fresh_ne. unfold h2, h1.
      rewrite !lookup_insert_ne by done. exact Hl. }
    unfold h2, h1. by rewrite !lookup_insert_ne.
Qed.

Lemma for_each_frame spans h h' entities entity_type entity_identified
    types identified dicts :
  loop_state h entities entity_type entity_identified types identified dicts →
  for_each spans (loop_body entities entity_type entity_identified) h = Ok ((), h') →
  size h' = size h + length spans
  ∧ ∀ l o, l ≠ entities → l ≠ entity_type → l ≠ entity_identified →
      h !! l = Some o → h' !! l = Some o.
Proof.
  revert h types identified dicts.
  induction spans as [|e spans IH]; intros h types identified dicts Hst Hrun.
  - simpl in Hrun. injection Hrun as <-. split; [simpl; lia|done].
  - destruct (loop_body_step _ _ _ _ _ _ _ e Hst) as (h1 & d & Hbody & Hst1).
    simpl in Hrun. erewrite stmt_bind_Ok in Hrun by exact Hbody.
    destruct (loop_body_frame _ _ _ _ _ _ _ _ _ Hst Hbody) as [Hsize Hframe].
    destruct (IH _ _ _ _ Hst1 Hrun) as [Hsize' Hframe'].
    split; [simpl; lia|]. intros l o ? ? ? Hl. apply Hframe'; auto.
Qed.
End SingleDocCell_frame.

(** X16. The single-document cell never touches what is already in the
    store: run in any store, it returns a reference that did not exist
    before, leaves every object that existed as it was, and adds exactly
    three lists and one dictionary per tagged span. *)
Theorem single_document_cell_frame (doc : Doc) (h0 : gmap nat SingleDocCell.object) :
  ∃ entities h,
    SingleDocCell.cell doc h0 = Ok (entities, h)
    ∧ h0 !! entities = None
    ∧ (∀ l o, h0 !! l = Some o → h !! l = Some o)
    ∧ size h = size h0 + 3 + length (ents doc).
Proof.
  pose proof (cell_prologue h0) as Hst0. simpl in Hst0.
  destruct (for_each_loop_body (ents doc) _ _ _ _ _ _ _ Hst0)
    as (h & dicts & Hloop & Hlen & Hst).
  destruct (for_each_frame _ _ _ _ _ _ _ _ _ Hst0 Hloop) as [Hsize Hframe].
  eexists _, h. split; [|split; [apply new_fresh|split]].
  - unfold SingleDocCell.cell.
    do 3 (erewrite stmt_bind_Ok by reflexivity).
    erewrite stmt_bind_Ok by exact Hloop. reflexivity.
  - intros l o Hl.
    set (e0 := fresh (dom h0)) in *.
    set (h1 := <[e0 := SingleDocCell.PyList []]> h0) in *.
    set (t0 := fresh (dom h1)) in *.
    set (h2 := <[t0 := SingleDocCell.PyList []]> h1) in *.
    set (i0 := fresh (dom h2)) in *.
    assert (l ≠ e0) by (by eapply lookup_fresh_ne).
    assert (h1 !! l = Some o) as Hl1 by (unfold h1; by rewrite lookup_insert_ne).
    assert (l ≠ t0) by (by eapply lookup_fresh_ne).
    assert (h2 !! l = Some o) as Hl2 by (unfold h2; by rewrite lookup_insert_ne).
    assert (l ≠ i0) by (by eapply lookup_fresh_ne).
    apply Hframe; try done. by rewrite lookup_insert_ne.
  - rewrite Hsize.
    rewrite !map_size_insert_None; [lia|apply new_fresh..].
Qed.
